(** * EA SBC squad calculator: rating formula, multiset enumerator,
      precomputed table and solver, embedded from
      [src/SolverHelper.js], [src/OptimalCombinations.js] and [src/index.js].

    Conventions of the embedding.
    - A JavaScript number is an exact number: a rating, a count, a price or
      a size is an integer ([Z]); the intermediate values of the rating
      formula (average, correction) are rationals ([Q]).  The rounding of
      binary64 arithmetic is not part of this model; [Binary64] evaluates
      the rating formula on IEEE 754 doubles for the documented values.
    - A JavaScript object whose keys are ratings is a finite map
      [gmap Z _]; [Object.entries] lists it by ascending key, as the
      language does for integer keys.
    - A generator is the list of the values it yields, in order.
    - A call either returns a value or throws ([outcome]). *)

From Stdlib Require Import ZArith QArith Qround Qminmax Lia List String.
From Stdlib Require Import Permutation Sorted.
From Stdlib Require Import PrimFloat SpecFloat FloatOps Uint63.
From stdpp Require Import base list gmap sorting pretty strings.

Import ListNotations.
Local Open Scope Z_scope.

(** ** JavaScript values, exceptions and built-ins *)

Module JS.

(** The scalars of the model.  Strings and objects are left out: their
    coercions to numbers are not needed by any property stated here. *)
Inductive scalar : Type :=
  | Undefined
  | Null
  | Bool (b : bool)
  | Num (n : Z).

(** An argument that should be a sequence: a scalar, or an array of
    scalars. *)
Inductive value : Type :=
  | Sc (s : scalar)
  | Arr (elems : list scalar).

(** [priceByRating]: [null], or an object from ratings to prices. *)
Inductive prices : Type :=
  | PricesNull
  | PricesObj (m : gmap Z Z).

#[global] Instance scalar_eq_dec : EqDecision scalar.
Proof. solve_decision. Defined.

#[global] Instance scalar_countable : Countable scalar.
Proof.
  refine (inj_countable'
            (fun s => match s with
                      | Undefined => inl (inl tt)
                      | Null => inl (inr tt)
                      | Bool b => inr (inl b)
                      | Num n => inr (inr n)
                      end)
            (fun c => match c with
                      | inl (inl _) => Undefined
                      | inl (inr _) => Null
                      | inr (inl b) => Bool b
                      | inr (inr n) => Num n
                      end) _).
  by intros [].
Defined.

(** A call returns or throws; the exception carries [error.message]. *)
Inductive outcome (A : Type) : Type :=
  | Return (a : A)
  | Throw (message : string).
Arguments Return {A} a.
Arguments Throw {A} message.

Definition bind {A B} (c : outcome A) (k : A -> outcome B) : outcome B :=
  match c with
  | Return a => k a
  | Throw m => Throw m
  end.

Notation "'let*' x ':=' c 'in' k" := (bind c (fun x => k))
  (at level 10, x name, c at level 100, k at level 200).

(** [typeof x === 'number'], [ToNumber] ([None] is NaN), [ToBoolean] and
    [ToString] ([`${x}`]) on scalars. *)
Definition is_number (s : scalar) : bool :=
  match s with Num _ => true | _ => false end.

Definition to_number (s : scalar) : option Z :=
  match s with
  | Undefined => None
  | Null => Some 0
  | Bool b => Some (if b then 1 else 0)
  | Num n => Some n
  end.

Definition truthy (s : scalar) : bool :=
  match s with
  | Undefined | Null => false
  | Bool b => b
  | Num n => negb (n =? 0)
  end.

Definition to_string (s : scalar) : string :=
  match s with
  | Undefined => "undefined"
  | Null => "null"
  | Bool b => if b then "true" else "false"
  | Num n => pretty n
  end.

(** [a < b], [a > b], [a >= b], [a <= b] with a number on the right; a
    comparison with NaN is false. *)
Definition js_lt (a : scalar) (b : Z) : bool :=
  match to_number a with Some x => x <? b | None => false end.
Definition js_gt (a : scalar) (b : Z) : bool :=
  match to_number a with Some x => x >? b | None => false end.
Definition js_ge (a : scalar) (b : Z) : bool :=
  match to_number a with Some x => x >=? b | None => false end.
Definition js_le (a : scalar) (b : Z) : bool :=
  match to_number a with Some x => x <=? b | None => false end.

(** [v.length]: a number on an array, [undefined] ([None]) on a boolean
    or a number, a TypeError on [null] and [undefined] (message as Node.js
    words it). *)
Definition length_of (v : value) : outcome (option Z) :=
  match v with
  | Arr l => Return (Some (Z.of_nat (length l)))
  | Sc Null => Throw "Cannot read properties of null (reading 'length')"
  | Sc Undefined => Throw "Cannot read properties of undefined (reading 'length')"
  | Sc _ => Return None
  end.

(** [Array.prototype.sort(cmp)]: a stable sort; [a] stays before [b] when
    [cmp a b <= 0]. *)
Fixpoint sort_insert {A} (cmp : A -> A -> Z) (x : A) (l : list A) : list A :=
  match l with
  | [] => [x]
  | y :: l' => if cmp x y <=? 0 then x :: l else y :: sort_insert cmp x l'
  end.

Definition sort {A} (cmp : A -> A -> Z) (l : list A) : list A :=
  fold_right (sort_insert cmp) [] l.

(** The order a comparator stands for: [a] may precede [b]. *)
Definition cmp_le {A} (cmp : A -> A -> Z) (a b : A) : Prop := cmp a b <= 0.

(** [l.slice(0, e)]: a negative [e] counts from the end. *)
Definition slice0 {A} (l : list A) (e : Z) : list A :=
  let len := Z.of_nat (length l) in
  let final := if e <? 0 then Z.max (len + e) 0 else Z.min e len in
  take (Z.to_nat final) l.

End JS.
Export JS.

(** ** SolverHelper.getRating *)

Module SolverHelper.

(** [while (paddedRatings.length < 11) paddedRatings.push(0)]: one test and
    one push per unit of fuel. *)
Fixpoint pad_loop (fuel : nat) (paddedRatings : list Q) : list Q :=
  match fuel with
  | O => paddedRatings
  | S fuel' =>
      if (length paddedRatings <? 11)%nat
      then pad_loop fuel' (paddedRatings ++ [0%Q])
      else paddedRatings
  end.

(** The loop pushes at most 11 times: the length grows by one per turn. *)
Definition paddedRatings_of (ratings : list Q) : list Q := pad_loop 11 ratings.

(** [curr > avg] on numbers. *)
Definition Qgtb (a b : Q) : bool := negb (Qle_bool a b).

(** [Math.round]: the nearest integer, a tie going up. *)
Definition Math_round (x : Q) : Z := Qfloor (x + (1 # 2))%Q.

(** [Math.floor]. *)
Definition Math_floor (x : Q) : Z := Qfloor x.

(** [getRating(ratings)]; [None] is an absent ([null], [undefined])
    argument. *)
Definition getRating (ratings : option (list Q)) : Z :=
  match ratings with
  | None => 0
  | Some [] => 0
  | Some rs =>
      let paddedRatings := paddedRatings_of rs in
      let sum := fold_left (fun acc curr => acc + curr)%Q paddedRatings 0%Q in
      let avg := (sum / 11)%Q in
      let correctionFactor :=
        fold_left (fun acc curr =>
                     if Qgtb curr avg then (acc + (curr - avg))%Q else acc)
                  paddedRatings 0%Q in
      let sumWithCorrection := (sum + correctionFactor)%Q in
      let rounded := Math_round sumWithCorrection in
      Math_floor (inject_Z rounded / 11)%Q
  end.

(** [getRating] on integer ratings, as the solver calls it. *)
Definition getRatingZ (ratings : list Z) : Z :=
  getRating (Some (map inject_Z ratings)).


(** *** SolverHelper.getPrice *)

(** [priceByRating[curr] || 0]; reading a property of [null] throws. *)
Definition price_of (priceByRating : prices) (curr : Z) : outcome Z :=
  match priceByRating with
  | PricesNull =>
      Throw ("Cannot read properties of null (reading '" +:+ pretty curr +:+ "')")
  | PricesObj m => Return (default 0 (m !! curr))
  end.

Definition getPrice (ratings : list Z) (priceByRating : prices) : outcome Z :=
  fold_left (fun acc curr => let* a := acc in
                             let* p := price_of priceByRating curr in
                             Return (a + p))
            ratings (Return 0).

(** *** SolverHelper.getMultisubsets *)

Definition prependNTimes {A} (a : A) (xss : list (list A)) (n : nat)
  : list (list A) :=
  let prefix := repeat a n in
  map (fun xs => prefix ++ xs) xss.

Fixpoint multisubsetsImpl {A} (set : list A) (n : nat) {struct set}
  : list (list A) :=
  match n with
  | O => [[]]
  | S _ =>
      match set with
      | [] => []
      | x :: rest =>
          flat_map (fun i => prependNTimes x (multisubsetsImpl rest (n - i)) i)
                   (seq 0 (S n))
      end
  end.

Definition getMultisubsets {A} (set : list A) (n : nat) : list (list A) :=
  multisubsetsImpl set n.

(** *** SolverHelper.countRatings *)

(** [acc[rating] = (acc[rating] || 0) + 1]; the object is keyed by the
    rating (by its string form, which determines the scalar). *)
Definition countRatings `{Countable K} (ratings : list K) : gmap K Z :=
  fold_left (fun acc rating => <[rating := default 0 (acc !! rating) + 1]> acc)
            ratings ∅.

(** *** SolverHelper.validateInputs *)

Record validation : Type := { valid : bool; errors : list string }.

(** [typeof r !== 'number' || r < 45 || r > 99]. *)
Definition bad_rating (r : scalar) : bool :=
  negb (is_number r) || js_lt r 45 || js_gt r 99.

(** The [forEach] over a ratings array: one message per bad element. *)
Fixpoint rating_errors (label : string) (index : nat) (l : list scalar)
  : list string :=
  match l with
  | [] => []
  | r :: l' =>
      (if bad_rating r
       then [label +:+ pretty index +:+ ": " +:+ to_string r]
       else [])
      ++ rating_errors label (S index) l'
  end.

Definition array_errors (notArray label : string) (v : value) : list string :=
  match v with
  | Arr l => rating_errors label 0 l
  | Sc _ => [notArray]
  end.

(** [existingRatings && squadSize && existingRatings.length > squadSize]. *)
Definition exceeds (existingRatings : value) (squadSize : scalar) : bool :=
  match existingRatings with
  | Sc _ => false
  | Arr l =>
      truthy squadSize &&
      match to_number squadSize with
      | Some s => Z.of_nat (length l) >? s
      | None => false
      end
  end.

Definition validateInputs (targetRating : scalar)
    (existingRatings availableRatings : value) (squadSize : scalar)
  : validation :=
  let errors :=
    (if bad_rating targetRating
     then ["Target rating must be a number between 45 and 99"] else [])
    ++ array_errors "Existing ratings must be an array"
                    "Invalid rating at index " existingRatings
    ++ array_errors "Available ratings must be an array"
                    "Invalid available rating at index " availableRatings
    ++ (if negb (is_number squadSize) || js_lt squadSize 1 || js_gt squadSize 23
        then ["Squad size must be a number between 1 and 23"] else [])
    ++ (if exceeds existingRatings squadSize
        then ["Existing ratings exceed squad size"] else [])
  in
  {| valid := (length errors =? 0)%nat; errors := errors |}.

End SolverHelper.

(** ** OptimalCombinations.js *)

Module OptimalCombinations.

(** An object literal [{ rating: count, ... }]. *)
Definition combination (l : list (Z * Z)) : gmap Z Z := list_to_map l.

(** [Object.entries(o)] of an object with integer keys: ascending keys. *)
Definition key_le {A} (a b : Z * A) : Prop := a.1 <= b.1.

#[global] Instance key_le_dec {A} : RelDecision (@key_le A).
Proof. intros a b. unfold key_le. apply _. Defined.

Definition entries {A} (o : gmap Z A) : list (Z * A) :=
  merge_sort key_le (map_to_list o).

Definition OPTIMAL_SBC_COMBINATIONS : gmap Z (list (gmap Z Z)) :=
  list_to_map [
    (80, [ combination [(82, 1); (81, 2); (80, 8)];
          combination [(83, 1); (80, 10)];
          combination [(82, 2); (80, 9)];
          combination [(81, 4); (80, 7)];
          combination [(84, 1); (79, 10)];
          combination [(82, 3); (79, 8)] ]);
    (81, [ combination [(82, 3); (81, 8)];
          combination [(83, 1); (81, 10)];
          combination [(84, 1); (80, 10)];
          combination [(82, 5); (80, 6)];
          combination [(83, 2); (80, 9)];
          combination [(85, 1); (79, 10)] ]);
    (82, [ combination [(83, 2); (82, 9)];
          combination [(84, 1); (82, 10)];
          combination [(83, 4); (81, 7)];
          combination [(85, 1); (81, 10)];
          combination [(84, 2); (81, 9)];
          combination [(86, 1); (80, 10)] ]);
    (83, [ combination [(83, 9); (82, 2)];
          combination [(84, 1); (83, 6); (82, 4)];
          combination [(85, 1); (82, 10)];
          combination [(84, 2); (83, 7); (82, 2)];
          combination [(86, 1); (82, 10)];
          combination [(84, 3); (82, 8)] ]);
    (84, [ combination [(84, 11)];
          combination [(85, 1); (84, 8); (83, 2)];
          combination [(86, 1); (83, 10)];
          combination [(85, 2); (84, 7); (83, 2)];
          combination [(87, 1); (83, 10)];
          combination [(85, 3); (83, 8)] ]);
    (85, [ combination [(85, 11)];
          combination [(86, 1); (85, 8); (84, 2)];
          combination [(87, 1); (84, 10)];
          combination [(86, 2); (85, 7); (84, 2)];
          combination [(88, 1); (84, 10)];
          combination [(86, 3); (84, 8)] ]);
    (86, [ combination [(86, 11)];
          combination [(87, 1); (86, 8); (85, 2)];
          combination [(88, 1); (85, 10)];
          combination [(87, 2); (86, 7); (85, 2)];
          combination [(89, 1); (85, 10)];
          combination [(87, 3); (85, 8)] ]);
    (87, [ combination [(87, 11)];
          combination [(88, 1); (87, 8); (86, 2)];
          combination [(89, 1); (86, 10)];
          combination [(88, 2); (87, 7); (86, 2)];
          combination [(90, 1); (86, 10)];
          combination [(88, 3); (86, 8)] ]);
    (88, [ combination [(88, 11)];
          combination [(89, 1); (88, 8); (87, 2)];
          combination [(90, 1); (87, 10)];
          combination [(89, 2); (88, 7); (87, 2)];
          combination [(91, 1); (87, 10)];
          combination [(89, 3); (87, 8)] ]);
    (89, [ combination [(89, 11)];
          combination [(90, 1); (89, 8); (88, 2)];
          combination [(91, 1); (88, 10)];
          combination [(90, 2); (89, 7); (88, 2)];
          combination [(92, 1); (88, 10)];
          combination [(90, 3); (88, 8)] ]);
    (90, [ combination [(90, 11)];
          combination [(91, 1); (90, 8); (89, 2)];
          combination [(92, 1); (89, 10)];
          combination [(91, 2); (90, 7); (89, 2)];
          combination [(93, 1); (89, 10)];
          combination [(91, 3); (89, 8)] ]);
    (91, [ combination [(91, 11)];
          combination [(92, 1); (91, 8); (90, 2)];
          combination [(93, 1); (90, 10)];
          combination [(92, 2); (91, 7); (90, 2)];
          combination [(94, 1); (90, 10)];
          combination [(92, 3); (90, 8)] ]);
    (92, [ combination [(92, 11)];
          combination [(93, 1); (92, 8); (91, 2)];
          combination [(94, 1); (91, 10)];
          combination [(93, 2); (92, 7); (91, 2)];
          combination [(95, 1); (91, 10)];
          combination [(93, 3); (91, 8)] ])
  ].

Definition getOptimalCombinations (targetRating : Z) : list (gmap Z Z) :=
  if (targetRating <? 80) || (targetRating >? 92) then []
  else default [] (OPTIMAL_SBC_COMBINATIONS !! targetRating).

(** [availableCounts[parseInt(rating)] || 0] for every entry; the counts
    object is keyed by what the inventory holds, so the key is [Num]. *)
Definition isCombinationPossible (combination : gmap Z Z)
    (availableCounts : gmap scalar Z) : bool :=
  forallb (fun '(rating, needed) =>
             let available := default 0 (availableCounts !! Num rating) in
             negb (available <? needed))
          (entries combination).

Definition combinationToArray (combination : gmap Z Z) : list Z :=
  flat_map (fun '(rating, count) => repeat rating (Z.to_nat count))
           (entries combination).

Definition calculateCombinationPoints (combination : gmap Z Z) : Z :=
  fold_left (fun total '(rating, count) => total + rating * count)
            (entries combination) 0.

End OptimalCombinations.

(** ** SolverHelper.getRating on IEEE 754 binary64 numbers *)

Module Binary64.

(** An integer below 2^53 in magnitude, as a double. *)
Definition float_of_Z (z : Z) : float :=
  if z <? 0 then PrimFloat.opp (PrimFloat.of_uint63 (Uint63.of_Z (- z)))
  else PrimFloat.of_uint63 (Uint63.of_Z z).

(** [Math.floor]: a double with a non-negative exponent is integral. *)
Definition Math_floor (x : float) : float :=
  match Prim2SF x with
  | S754_finite s m e =>
      if e >=? 0 then x
      else
        let d := 2 ^ (- e) in
        let q := Z.pos m / d in
        let r := Z.pos m mod d in
        if s then float_of_Z (- (q + (if r =? 0 then 0 else 1)))
        else float_of_Z q
  | _ => x
  end.

(** [Math.round]: the integral number closest to [x], ties towards
    +infinity; [-0] for [x] in [[-0.5, 0)]. *)
Definition Math_round (x : float) : float :=
  match Prim2SF x with
  | S754_finite s m e =>
      if e >=? 0 then x
      else
        let d := 2 ^ (- e) in
        let n := if s then - Z.pos m else Z.pos m in
        let r := (2 * n + d) / (2 * d) in
        if (r =? 0) && s then PrimFloat.neg_zero else float_of_Z r
  | _ => x
  end.

Fixpoint pad_loop (fuel : nat) (paddedRatings : list float) : list float :=
  match fuel with
  | O => paddedRatings
  | S fuel' =>
      if (length paddedRatings <? 11)%nat
      then pad_loop fuel' (paddedRatings ++ [PrimFloat.zero])
      else paddedRatings
  end.

Definition getRating (ratings : option (list float)) : float :=
  match ratings with
  | None => PrimFloat.zero
  | Some [] => PrimFloat.zero
  | Some rs =>
      let paddedRatings := pad_loop 11 rs in
      let sum :=
        fold_left (fun acc curr => PrimFloat.add acc curr)
                  paddedRatings PrimFloat.zero in
      let avg := PrimFloat.div sum 11%float in
      let correctionFactor :=
        fold_left (fun acc curr =>
                     if PrimFloat.ltb avg curr
                     then PrimFloat.add acc (PrimFloat.sub curr avg) else acc)
                  paddedRatings PrimFloat.zero in
      let sumWithCorrection := PrimFloat.add sum correctionFactor in
      let rounded := Math_round sumWithCorrection in
      Math_floor (PrimFloat.div rounded 11%float)
  end.

End Binary64.

(** ** The rating formula as the specification words it *)

Module RatingSpec.

Definition Qsum (l : list Q) : Q := fold_right Qplus 0%Q l.

(** Pad with zeros to exactly 11 entries (never truncate). *)
Definition pad11 (r : list Q) : list Q := r ++ repeat 0%Q (11 - length r).

(** Standard round-half-up: a fractional part of one half or more goes
    up. *)
Definition round_half_up (x : Q) : Z :=
  let f := Qfloor x in
  if Qle_bool (1 # 2) (x - inject_Z f) then f + 1 else f.

(** [floor(round-half-up(sum + correction) / 11)] with
    [correction = sum of max(0, v - average)]. *)
Definition aggregateRating (r : list Q) : Z :=
  let p := pad11 r in
  let sum := Qsum p in
  let average := (sum / 11)%Q in
  let correction := Qsum (map (fun v => Qmax 0 (v - average)) p) in
  (round_half_up (sum + correction) / 11)%Z.

End RatingSpec.


(** ** What the specification says of the table *)

Module TableSpec.
Import OptimalCombinations.

(** The sum of the counts of a combination. *)
Definition combination_size (c : gmap Z Z) : Z :=
  fold_left Z.add (map snd (entries c)) 0.

(** The total rating points of the combinations stored for a target, in
    table order. *)
Definition points_of (t : Z) : list Z :=
  map calculateCombinationPoints (getOptimalCombinations t).

End TableSpec.

(** ** index.js: SBCRatingCalculator and calculateSquadSolutions *)

Module Index.
Import SolverHelper OptimalCombinations.

(** One [{rating, count}] group of a squad. *)
Record group : Type := { rating : Z; count : Z }.

Record solution : Type := {
  price : Z;
  squad : list group;
  actualRating : Z;
  totalRatingPoints : Z;
  efficiency : Q;
  isOptimal : option bool;               (* set by the fast path only *)
  combinationUsed : option (list Z)      (* set by the exhaustive loop only *)
}.

Record result : Type := {
  error : option string;
  solutionsFound : Z;
  solutions : list solution;
  message : option string
}.

Definition no_solutions : result :=
  {| error := None; solutionsFound := 0; solutions := []; message := None |}.

Definition error_result (msg : string) : result :=
  {| error := Some msg; solutionsFound := 0; solutions := []; message := None |}.

(** [ratings.reduce((a, b) => a + b, 0)]. *)
Definition sum_ratings (ratings : list Z) : Z :=
  fold_left (fun a b => a + b) ratings 0.

Record SBCRatingCalculator : Type := {
  defaultSquadSize : Z;
  defaultMaxSolutions : Z
}.

(** [constructor(options = {})]: [options.x || default]. *)
Definition new_calculator (defaultSquadSize defaultMaxSolutions : option Z)
  : SBCRatingCalculator :=
  let or_default (o : option Z) (d : Z) :=
    match o with Some v => if v =? 0 then d else v | None => d end in
  {| defaultSquadSize := or_default defaultSquadSize 11;
     defaultMaxSolutions := or_default defaultMaxSolutions 50 |}.

(** *** findOptimalSolutions *)

Module OptimalOptions.
Record t : Type := {
  targetRating : Z;
  availableRatings : option (list scalar);   (* default [] *)
  priceByRating : option prices;             (* default {} *)
  maxSolutions : option Z                    (* default 10 *)
}.
End OptimalOptions.

(** The body of the [for] loop over the sliced table: one combination. *)
Definition optimal_step (targetRating : Z) (availableCounts : gmap scalar Z)
    (priceByRating : prices) (solutions : list solution)
    (combination : gmap Z Z) : outcome (list solution) :=
  if isCombinationPossible combination availableCounts then
    let ratingArray := combinationToArray combination in
    let* price := getPrice ratingArray priceByRating in
    let totalRatingPoints := calculateCombinationPoints combination in
    let squad := map (fun '(rating, count) =>
                        {| rating := rating; count := count |})
                     (entries combination) in
    Return (solutions ++
            [{| price := price;
                squad := squad;
                actualRating := targetRating;
                totalRatingPoints := totalRatingPoints;
                efficiency := inject_Z totalRatingPoints / inject_Z targetRating;
                isOptimal := Some true;
                combinationUsed := None |}])
  else Return solutions.

Fixpoint for_of {A S} (step : S -> A -> outcome S) (l : list A) (s : S)
  : outcome S :=
  match l with
  | [] => Return s
  | a :: l' => let* s' := step s a in for_of step l' s'
  end.

Definition findOptimalSolutions (options : OptimalOptions.t) : outcome result :=
  let targetRating := OptimalOptions.targetRating options in
  let availableRatings := default [] (OptimalOptions.availableRatings options) in
  let priceByRating :=
    default (PricesObj ∅) (OptimalOptions.priceByRating options) in
  let maxSolutions := default 10 (OptimalOptions.maxSolutions options) in
  let optimalCombinations := getOptimalCombinations targetRating in
  if (length optimalCombinations =? 0)%nat then
    Return {| error := None; solutionsFound := 0; solutions := [];
              message := Some ("No optimal combinations available for rating "
                               +:+ pretty targetRating
                               +:+ ". Use findSquadSolutions for custom search.") |}
  else
    let availableCounts := countRatings availableRatings in
    let* solutions :=
      for_of (optimal_step targetRating availableCounts priceByRating)
             (slice0 optimalCombinations maxSolutions) [] in
    Return {| error := None;
              solutionsFound := Z.of_nat (length solutions);
              solutions :=
                JS.sort (fun a b => totalRatingPoints a - totalRatingPoints b)
                        solutions;
              message := None |}.

(** *** calculateSquadSolutions *)

(** The two comparators of the final sort. *)
Definition by_price (a b : solution) : Z :=
  if negb (price a =? price b) then price a - price b
  else totalRatingPoints a - totalRatingPoints b.

Definition by_points (a b : solution) : Z :=
  if negb (totalRatingPoints a =? totalRatingPoints b)
  then totalRatingPoints a - totalRatingPoints b
  else price a - price b.

(** The [for] over [Object.entries(neededCounts)] with its [break]. *)
Definition hasEnoughCards (availableCounts neededCounts : gmap Z Z) : bool :=
  forallb (fun '(rating, needed) =>
             negb (default 0 (availableCounts !! rating) <? needed))
          (entries neededCounts).

(** The body of the [for] loop over the enumerated combinations. *)
Definition squad_step (targetRating : Z) (existingRatings : list Z)
    (availableCounts : gmap Z Z) (priceByRating : prices)
    (solutions : list solution) (combination : list Z)
  : outcome (list solution) :=
  let neededCounts := countRatings combination in
  if negb (hasEnoughCards availableCounts neededCounts) then Return solutions
  else
    let fullSquad := existingRatings ++ combination in
    let rating := getRatingZ fullSquad in
    if rating <? targetRating then Return solutions
    else
      let ratingCounts := countRatings combination in
      let squad := map (fun '(rating, count) =>
                          {| Index.rating := rating; Index.count := count |})
                       (entries ratingCounts) in
      let totalRatingPoints := sum_ratings fullSquad in
      let* price := getPrice combination priceByRating in
      let efficiency := (inject_Z totalRatingPoints / inject_Z (Z.max rating 1))%Q in
      Return (solutions ++
              [{| price := price;
                  squad := squad;
                  actualRating := rating;
                  totalRatingPoints := totalRatingPoints;
                  efficiency := efficiency;
                  isOptimal := None;
                  combinationUsed := Some combination |}]).

(** The [try] block. *)
Definition calculateSquadSolutions_try (targetRating : Z)
    (existingRatings ratingsToTry : list Z) (priceByRating : prices)
    (SQUAD_SIZE MAX_SOLUTIONS_TO_TAKE : Z) (sortByPrice : bool)
  : outcome result :=
  if (targetRating >? 99) || (targetRating <? 45) then Return no_solutions
  else
    let remainingSlots := SQUAD_SIZE - Z.of_nat (length existingRatings) in
    if remainingSlots <=? 0 then
      let currentRating := getRatingZ existingRatings in
      if currentRating >=? targetRating then
        Return {| error := None;
                  solutionsFound := 1;
                  solutions :=
                    [{| price := 0;
                        squad := [];
                        actualRating := currentRating;
                        totalRatingPoints := sum_ratings existingRatings;
                        efficiency := 0;
                        isOptimal := None;
                        combinationUsed := None |}];
                  message := None |}
      else Return no_solutions
    else
      let availableCounts := countRatings ratingsToTry in
      let combinations :=
        getMultisubsets ratingsToTry (Z.to_nat remainingSlots) in
      let* solutions :=
        for_of (squad_step targetRating existingRatings availableCounts
                           priceByRating)
               combinations [] in
      let solutions :=
        if sortByPrice then JS.sort by_price solutions
        else JS.sort by_points solutions in
      let solutions :=
        if negb (MAX_SOLUTIONS_TO_TAKE =? 0) && (MAX_SOLUTIONS_TO_TAKE >? 0)
        then slice0 solutions MAX_SOLUTIONS_TO_TAKE
        else solutions in
      Return {| error := None;
                solutionsFound := Z.of_nat (length solutions);
                solutions := solutions;
                message := None |}.

(** [try { ... } catch (error) { ... error.message || "An error occurred" }]. *)
Definition calculateSquadSolutions (targetRating : Z)
    (existingRatings ratingsToTry : list Z) (priceByRating : prices)
    (SQUAD_SIZE MAX_SOLUTIONS_TO_TAKE : Z) (sortByPrice : bool)
  : outcome result :=
  match calculateSquadSolutions_try targetRating existingRatings ratingsToTry
          priceByRating SQUAD_SIZE MAX_SOLUTIONS_TO_TAKE sortByPrice with
  | Return r => Return r
  | Throw m =>
      Return (error_result (if String.eqb m "" then "An error occurred" else m))
  end.

(** *** findSquadSolutions *)

Module SquadOptions.
Record t : Type := {
  targetRating : scalar;
  existingRatings : value;                 (* [Sc Undefined]: default [] *)
  availableRatings : value;                (* [Sc Undefined]: default [] *)
  priceByRating : option prices;           (* default {} *)
  squadSize : scalar;                      (* [Undefined]: the calculator's *)
  maxSolutions : option Z;                 (* default: the calculator's *)
  sortByPrice : option bool;               (* default true *)
  useOptimalCombinations : option bool     (* default true *)
}.
End SquadOptions.

(** A destructuring default [x = d] replaces [undefined] only. *)
Definition value_or (d : value) (v : value) : value :=
  match v with Sc Undefined => d | _ => v end.

Definition scalar_or (d : scalar) (s : scalar) : scalar :=
  match s with Undefined => d | _ => s end.

(** [existingRatings.length === 0 && useOptimalCombinations &&
     targetRating >= 80 && targetRating <= 92 &&
     availableRatings.length > 50], left to right. *)
Definition fast_path_test (existingRatings : value)
    (useOptimalCombinations : bool) (targetRating : scalar)
    (availableRatings : value) : outcome bool :=
  let* len := length_of existingRatings in
  if negb (bool_decide (len = Some 0)) then Return false
  else if negb useOptimalCombinations then Return false
  else if negb (js_ge targetRating 80) then Return false
  else if negb (js_le targetRating 92) then Return false
  else
    let* alen := length_of availableRatings in
    Return (match alen with Some n => n >? 50 | None => false end).

(** The numbers of an array that passed validation (all its elements). *)
Definition numbers_of (l : list scalar) : list Z :=
  omap (fun s => match s with Num n => Some n | _ => None end) l.

(** The destructuring of [options], with its defaults. *)
Definition existingRatings_of (options : SquadOptions.t) : value :=
  value_or (Arr []) (SquadOptions.existingRatings options).

Definition availableRatings_of (options : SquadOptions.t) : value :=
  value_or (Arr []) (SquadOptions.availableRatings options).

Definition priceByRating_of (options : SquadOptions.t) : prices :=
  default (PricesObj ∅) (SquadOptions.priceByRating options).

Definition squadSize_of (this : SBCRatingCalculator) (options : SquadOptions.t)
  : scalar :=
  scalar_or (Num (defaultSquadSize this)) (SquadOptions.squadSize options).

Definition maxSolutions_of (this : SBCRatingCalculator)
    (options : SquadOptions.t) : Z :=
  default (defaultMaxSolutions this) (SquadOptions.maxSolutions options).

Definition sortByPrice_of (options : SquadOptions.t) : bool :=
  default true (SquadOptions.sortByPrice options).

Definition useOptimalCombinations_of (options : SquadOptions.t) : bool :=
  default true (SquadOptions.useOptimalCombinations options).

(** The first [if] of [findSquadSolutions]: [Some] is the result it
    returns, [None] is falling through to the validation. *)
Definition fast_path (this : SBCRatingCalculator) (options : SquadOptions.t)
  : outcome (option result) :=
  let targetRating := SquadOptions.targetRating options in
  let availableRatings := availableRatings_of options in
  let* taken := fast_path_test (existingRatings_of options)
                              (useOptimalCombinations_of options)
                              targetRating availableRatings in
  if taken then
    match targetRating, availableRatings with
    | Num t, Arr available =>
        let* optimalResult :=
          findOptimalSolutions
            {| OptimalOptions.targetRating := t;
               OptimalOptions.availableRatings := Some available;
               OptimalOptions.priceByRating := Some (priceByRating_of options);
               OptimalOptions.maxSolutions := Some (maxSolutions_of this options) |} in
        Return (if solutionsFound optimalResult >? 0
                then Some optimalResult else None)
    | _, _ => Return None   (* the test admits no other shape *)
    end
  else Return None.

Definition findSquadSolutions (this : SBCRatingCalculator)
    (options : SquadOptions.t) : outcome result :=
  let targetRating := SquadOptions.targetRating options in
  let existingRatings := existingRatings_of options in
  let availableRatings := availableRatings_of options in
  let squadSize := squadSize_of this options in
  let* fast := fast_path this options in
  match fast with
  | Some optimalResult => Return optimalResult
  | None =>
      let validation :=
        validateInputs targetRating existingRatings availableRatings squadSize in
      if negb (valid validation) then
        Return (error_result (String.concat ", " (errors validation)))
      else
        match targetRating, existingRatings, availableRatings, squadSize with
        | Num t, Arr existing, Arr available, Num size =>
            calculateSquadSolutions t (numbers_of existing)
              (numbers_of available) (priceByRating_of options) size
              (maxSolutions_of this options) (sortByPrice_of options)
        | _, _, _, _ =>      (* validation admits no other shape *)
            Return (error_result "")
        end
  end.

(** [findMostEfficientSolutions]: [{...options, sortByPrice: false}]. *)
Definition findMostEfficientSolutions (this : SBCRatingCalculator)
    (options : SquadOptions.t) : outcome result :=
  findSquadSolutions this
    {| SquadOptions.targetRating := SquadOptions.targetRating options;
       SquadOptions.existingRatings := SquadOptions.existingRatings options;
       SquadOptions.availableRatings := SquadOptions.availableRatings options;
       SquadOptions.priceByRating := SquadOptions.priceByRating options;
       SquadOptions.squadSize := SquadOptions.squadSize options;
       SquadOptions.maxSolutions := SquadOptions.maxSolutions options;
       SquadOptions.sortByPrice := Some false;
       SquadOptions.useOptimalCombinations :=
         SquadOptions.useOptimalCombinations options |}.

End Index.

(** ** Notions the statements use *)

Module SolverSpec.
Import Index.


(** The members a squad stands for: [count] copies of each [rating]. *)
Definition expand_squad (sq : list group) : list Z :=
  flat_map (fun g => repeat (rating g) (Z.to_nat (count g))) sq.

(** How often [k] occurs in [l]. *)
Definition occurrences `{EqDecision K} (k : K) (l : list K) : Z :=
  Z.of_nat (length (filter (fun x => x = k) l)).

(** The binomial coefficient C(n, k), by Pascal's rule. *)
Fixpoint binomial (n k : nat) {struct n} : nat :=
  match k with
  | O => 1
  | S k' =>
      match n with
      | O => 0
      | S n' => binomial n' k' + binomial n' k
      end
  end.

(** No two entries of [l] (at different positions) are equal as
    multisets. *)
Definition distinct_multisets {A} (l : list (list A)) : Prop :=
  forall (i j : nat) (xs ys : list A),
    l !! i = Some xs -> l !! j = Some ys -> xs ≡ₚ ys -> i = j.

(** The same, by recursion on the list. *)
Fixpoint all_distinct {A} (l : list (list A)) : Prop :=
  match l with
  | [] => True
  | xs :: l' => Forall (fun ys => ~ xs ≡ₚ ys) l' /\ all_distinct l'
  end.

(** A solution is feasible against an inventory: no group of its squad,
    and no rating of the combination it was built from, asks for more
    copies than the inventory holds. *)
Definition feasible (inventory : list scalar) (s : solution) : Prop :=
  (forall g, g ∈ squad s ->
     count g <= occurrences (Num (rating g)) inventory) /\
  (forall combination k, combinationUsed s = Some combination ->
     occurrences k combination <= occurrences (Num k) inventory).

(** The enumerated validation checks. *)
Definition rating_ok (r : scalar) : Prop :=
  exists n, r = Num n /\ 45 <= n <= 99.

Definition ratings_ok (v : value) : Prop :=
  exists l, v = Arr l /\ Forall rating_ok l.

Definition size_ok (s : scalar) : Prop :=
  exists n, s = Num n /\ 1 <= n <= 23.

Definition fits (existingRatings : value) (squadSize : scalar) : Prop :=
  forall l n, existingRatings = Arr l -> squadSize = Num n ->
              Z.of_nat (length l) <= n.


(** Ascending by price, ties broken ascending by total rating points. *)
Definition price_then_points (a b : solution) : Prop :=
  price a < price b \/
  (price a = price b /\ totalRatingPoints a <= totalRatingPoints b).

(** Ascending by total rating points, ties broken ascending by price. *)
Definition points_then_price (a b : solution) : Prop :=
  totalRatingPoints a < totalRatingPoints b \/
  (totalRatingPoints a = totalRatingPoints b /\ price a <= price b).

End SolverSpec.

(** ** Inputs of the test suite ([test/index.test.js]) *)

Module TestData.
Import Index.

(** [largeInventory]: 15 copies of 83, 10 of 82, 50 of 81, 25 of 84. *)
Definition largeInventory : list scalar :=
  map Num (repeat 83 15 ++ repeat 82 10 ++ repeat 81 50 ++ repeat 84 25).

(** [{ 81: 500, 82: 800, 83: 1000, 84: 2000 }]. *)
Definition largePrices : gmap Z Z :=
  list_to_map [(81, 500); (82, 800); (83, 1000); (84, 2000)].

(** The call of the test [should find optimal 83 rating solution], with
    [maxSolutions] left open ([None]: not passed). *)
Definition optimal83 (maxSolutions : option Z) : OptimalOptions.t :=
  {| OptimalOptions.targetRating := 83;
     OptimalOptions.availableRatings := Some largeInventory;
     OptimalOptions.priceByRating := Some (PricesObj largePrices);
     OptimalOptions.maxSolutions := maxSolutions |}.

End TestData.

(** ** The other static methods of SolverHelper *)

Module Helpers.

(** [a / b] on integers: the quotient, or [None] when [b] is 0 (the
    result is then [NaN] or an infinity). *)
Definition js_div (a b : Z) : option Q :=
  if b =? 0 then None else Some (inject_Z a / inject_Z b)%Q.






End Helpers.

(** ** The other methods of SBCRatingCalculator *)

Module Calculator.
Import SolverHelper Index.

(** [calculateTeamRating(ratings)]. *)
Definition calculateTeamRating (ratings : option (list Q)) : Z :=
  getRating ratings.

(** [Math.ceil]. *)
Definition Math_ceil (x : Q) : Z := Qceiling x.

(** [calculateMinimumRatingNeeded(targetRating, existingRatings,
    remainingSlots, squadSize = 11)]; [None] when the quotient is not
    finite ([remainingSlots] is 0). *)
Definition calculateMinimumRatingNeeded (targetRating : Z)
    (existingRatings : list Z) (remainingSlots : Z) (squadSize : option Z)
  : option Z :=
  let currentSum := fold_left (fun sum rating => sum + rating) existingRatings 0 in
  let targetSum := targetRating * 11 in
  let remainingSum := targetSum - currentSum in
  option_map Math_ceil (Helpers.js_div remainingSum remainingSlots).

(** The object [validateSquad] returns; the size branch has no
    [targetRating] and a [null] [actualRating]. *)
Module SquadValidation.
Record t : Type := {
  valid : bool;
  actualRating : option Z;
  targetRating : option Z;
  message : string
}.
End SquadValidation.

(** [validateSquad(ratings, targetRating, squadSize = 11)]. *)
Definition validateSquad (ratings : list Z) (targetRating : Z)
    (squadSize : option Z) : SquadValidation.t :=
  let squadSize := default 11 squadSize in
  if negb (Z.of_nat (length ratings) =? squadSize) then
    {| SquadValidation.valid := false;
       SquadValidation.message :=
         "Squad must have exactly " +:+ pretty squadSize +:+ " players";
       SquadValidation.actualRating := None;
       SquadValidation.targetRating := None |}
  else
    let actualRating := getRatingZ ratings in
    let valid := actualRating >=? targetRating in
    {| SquadValidation.valid := valid;
       SquadValidation.actualRating := Some actualRating;
       SquadValidation.targetRating := Some targetRating;
       SquadValidation.message :=
         if valid
         then "Squad achieves target rating (" +:+ pretty actualRating
              +:+ " >= " +:+ pretty targetRating +:+ ")"
         else "Squad rating too low (" +:+ pretty actualRating
              +:+ " < " +:+ pretty targetRating +:+ ")" |}.

End Calculator.

(** [getRatingStatistics] and the object it returns. *)
Module Statistics.

Record t : Type := {
  min : Z;
  max : Z;
  average : Q;
  median : Q;
  count : Z
}.

(** [sorted[i]] for an index in range. *)
Definition at_index (sorted : list Z) (i : Z) : Z := nth (Z.to_nat i) sorted 0.

Definition getRatingStatistics (ratings : option (list Z)) : t :=
  match ratings with
  | None | Some [] =>
      {| min := 0; max := 0; average := 0; median := 0; count := 0 |}
  | Some ratings =>
      let sorted := JS.sort (fun a b => a - b) ratings in
      let count := Z.of_nat (length ratings) in
      let sum := fold_left (fun acc rating => acc + rating) ratings 0 in
      let average :=
        (inject_Z (SolverHelper.Math_round
                     (inject_Z sum / inject_Z count * 100)) / 100)%Q in
      let median :=
        if count mod 2 =? 0
        then ((inject_Z (at_index sorted (count / 2 - 1))
               + inject_Z (at_index sorted (count / 2))) / 2)%Q
        else inject_Z (at_index sorted (count / 2)) in
      {| min := at_index sorted 0;
         max := at_index sorted (count - 1);
         average := average;
         median := median;
         count := count |}
  end.

End Statistics.

(** ** Notions the further statements use *)

Module MoreSpec.
Import Index SolverSpec.

(** The sum of a list of integers. *)
Definition Zsum (l : list Z) : Z := fold_right Z.add 0 l.

(** Eleven times the correction of the rating formula, on integers:
    the sum of [max(0, 11 v - S)] over the padded ratings. *)
Definition bonus11 (S : Z) (padded : list Z) : Z :=
  Zsum (map (fun v => Z.max 0 (11 * v - S)) padded).

(** The rating formula on integers alone. *)
Definition rating_formula (ratings : list Z) : Z :=
  match ratings with
  | [] => 0
  | _ =>
      let padded := ratings ++ repeat 0 (11 - length ratings) in
      let S := Zsum padded in
      (22 * S + 2 * bonus11 S padded + 11) / 22 / 11
  end.


(** What the loop of the fast path keeps true of every pushed solution:
    it comes from a feasible combination of the table. *)
Definition from_table (t : Z) (counts : gmap scalar Z) (p : prices)
    (s : solution) : Prop :=
  exists c, c ∈ OptimalCombinations.getOptimalCombinations t /\
            OptimalCombinations.isCombinationPossible c counts = true /\
            squad s = map (fun '(rating, count) =>
                             {| rating := rating; count := count |})
                          (OptimalCombinations.entries c) /\
            totalRatingPoints s = OptimalCombinations.calculateCombinationPoints c /\
            SolverHelper.getPrice (OptimalCombinations.combinationToArray c) p
            = Return (price s) /\
            actualRating s = t /\
            efficiency s = (inject_Z (totalRatingPoints s) / inject_Z t)%Q /\
            isOptimal s = Some true /\ combinationUsed s = None.

(** A solution of the exhaustive search, built from the fill
    [combination] added to the existing roster. *)
Definition built_from (t : Z) (existing : list Z) (p : prices)
    (combination : list Z) (s : solution) : Prop :=
  combinationUsed s = Some combination /\
  isOptimal s = None /\
  actualRating s = SolverHelper.getRatingZ (existing ++ combination) /\
  t <= actualRating s /\
  totalRatingPoints s = sum_ratings (existing ++ combination) /\
  SolverHelper.getPrice combination p = Return (price s) /\
  expand_squad (squad s) ≡ₚ combination /\
  efficiency s = (inject_Z (totalRatingPoints s)
                  / inject_Z (Z.max (actualRating s) 1))%Q.

(** Ascending by total rating points. *)
Definition by_total_points (a b : solution) : Prop :=
  totalRatingPoints a <= totalRatingPoints b.

End MoreSpec.

(** * Properties *)

(** ** The rating formula *)

Section RatingFormula.
Import SolverHelper RatingSpec.
Local Open Scope Q_scope.

Lemma pad_loop_spec (fuel : nat) (l : list Q) :
  (11 - length l <= fuel)%nat ->
  pad_loop fuel l = l ++ repeat 0 (11 - length l).
Proof.
  revert l. induction fuel as [|fuel IH]; intros l Hfuel; simpl.
  - replace (11 - length l)%nat with O by lia. simpl. by rewrite app_nil_r.
  - destruct (Nat.ltb_spec (length l) 11) as [Hlt|Hge].
    + rewrite IH by (rewrite length_app; simpl; lia).
      rewrite length_app. simpl length.
      replace (11 - length l)%nat with (S (11 - (length l + 1))) by lia.
      simpl. by rewrite <- app_assoc.
    + replace (11 - length l)%nat with O by lia. simpl. by rewrite app_nil_r.
Qed.

Lemma paddedRatings_of_pad11 (r : list Q) : paddedRatings_of r = pad11 r.
Proof. apply pad_loop_spec. lia. Qed.

Lemma reduce_sum (l : list Q) (a : Q) :
  fold_left (fun acc curr => acc + curr) l a == a + Qsum l.
Proof.
  revert a. induction l as [|x l IH]; intros a; simpl.
  - ring.
  - rewrite IH. ring.
Qed.

Lemma Qgtb_true (a b : Q) : Qgtb a b = true <-> b < a.
Proof.
  unfold Qgtb. rewrite negb_true_iff. split.
  - intros H. apply Qnot_le_lt. intros Hle.
    apply Qle_bool_iff in Hle. congruence.
  - intros H. destruct (Qle_bool a b) eqn:E; [|done].
    apply Qle_bool_iff in E. exfalso. by apply (Qlt_not_le b a).
Qed.

Lemma bonus_max (curr avg avg' : Q) (acc : Q) :
  avg == avg' ->
  (if Qgtb curr avg then acc + (curr - avg) else acc)
  == acc + Qmax 0 (curr - avg').
Proof.
  intros Havg. destruct (Qgtb curr avg) eqn:E.
  - apply Qgtb_true in E.
    rewrite Q.max_r; [rewrite Havg; reflexivity|].
    rewrite <- Havg. apply Qlt_le_weak. unfold Qminus.
    rewrite <- (Qplus_opp_r avg). apply Qplus_lt_l. done.
  - assert (curr <= avg) as Hle.
    { apply Qnot_lt_le. intros Hlt. apply Qgtb_true in Hlt. congruence. }
    rewrite Q.max_l; [ring|].
    rewrite <- Havg. unfold Qminus.
    rewrite <- (Qplus_opp_r avg). apply Qplus_le_l. done.
Qed.

Lemma reduce_correction (l : list Q) (avg avg' acc : Q) :
  avg == avg' ->
  fold_left (fun acc curr =>
               if Qgtb curr avg then acc + (curr - avg) else acc) l acc
  == acc + Qsum (map (fun v => Qmax 0 (v - avg')) l).
Proof.
  intros Havg. revert acc. induction l as [|x l IH]; intros acc; simpl.
  - ring.
  - rewrite IH. rewrite (bonus_max x avg avg' acc Havg). ring.
Qed.

Lemma Math_floor_div11 (n : Z) : Math_floor (inject_Z n / 11) = (n / 11)%Z.
Proof.
  unfold Math_floor, Qdiv, Qmult, Qinv, inject_Z, Qfloor. simpl.
  by rewrite Z.mul_1_r.
Qed.

Lemma Qfloor_unique (y : Q) (n : Z) :
  inject_Z n <= y -> y < inject_Z (n + 1) -> Qfloor y = n.
Proof.
  intros Hle Hlt. apply Z.le_antisymm.
  - apply Z.lt_succ_r. rewrite <- Z.add_1_r.
    rewrite Zlt_Qlt. eapply Qle_lt_trans; [apply Qfloor_le | exact Hlt].
  - rewrite <- (Qfloor_Z n). by apply Qfloor_resp_le.
Qed.

(** [H : a <= b] proves [c <= d] (or both strict) when [d - c] and
    [b - a] are the same polynomial. *)
Ltac q_shift H :=
  change (inject_Z 1) with 1 in *;
  first [ apply Qle_minus_iff; apply Qle_minus_iff in H
        | apply Qlt_minus_iff; apply Qlt_minus_iff in H ];
  match goal with
  | |- _ 0 ?g =>
      match type of H with
      | _ 0 ?h => assert (Qeq g h) as -> by ring; exact H
      end
  end.

(** [Math.round] is round-half-up. *)
Lemma Math_round_half_up (x : Q) : Math_round x = round_half_up x.
Proof.
  unfold Math_round, round_half_up. cbv zeta.
  pose proof (Qfloor_le x) as Hlo. pose proof (Qlt_floor x) as Hhi.
  set (f := Qfloor x) in *. rewrite inject_Z_plus in Hhi.
  destruct (Qle_bool (1 # 2) (x - inject_Z f)) eqn:E.
  - apply Qle_bool_iff in E. apply Qfloor_unique.
    + rewrite inject_Z_plus. q_shift E.
    + rewrite !inject_Z_plus. change (inject_Z 1) with 1 in *.
      apply Qlt_le_trans with (inject_Z f + 1 + (1 # 2)); [q_shift Hhi|].
      apply Qle_minus_iff.
      by assert (inject_Z f + 1 + 1 + - (inject_Z f + 1 + (1 # 2)) == 1 # 2)
        as -> by ring.
  - assert (x - inject_Z f < 1 # 2) as Hlt.
    { apply Qnot_le_lt. intros H. apply Qle_bool_iff in H. congruence. }
    apply Qfloor_unique.
    + apply Qle_trans with x; [exact Hlo|].
      apply Qle_minus_iff. by assert (x + (1 # 2) + - x == 1 # 2) as -> by ring.
    + rewrite inject_Z_plus. q_shift Hlt.
Qed.




End RatingFormula.

(** ** The precomputed table *)

Section Table.
Import OptimalCombinations TableSpec.

Lemma supported_targets (t : Z) :
  80 <= t <= 92 ->
  t ∈ [80; 81; 82; 83; 84; 85; 86; 87; 88; 89; 90; 91; 92].
Proof.
  intros H. rewrite !elem_of_cons.
  assert (t = 80 \/ t = 81 \/ t = 82 \/ t = 83 \/ t = 84 \/ t = 85 \/ t = 86 \/
          t = 87 \/ t = 88 \/ t = 89 \/ t = 90 \/ t = 91 \/ t = 92) by lia.
  tauto.
Qed.

Lemma not_sorted_by_decide (l : list Z) :
  bool_decide (Sorted Z.le l) = false -> ~ Sorted Z.le l.
Proof. apply bool_decide_eq_false_1. Qed.

(** C3: for every target in [80, 92] every stored combination has counts
    summing to 11, but its list is not sorted ascending by total rating
    points (for target 80 the totals are 884, 883, 884, 884, 874, 878). *)
Theorem table_sizes_and_order (t : Z) :
  80 <= t <= 92 ->
  Forall (fun c => combination_size c = 11) (getOptimalCombinations t) /\
  ~ Sorted Z.le (points_of t) /\
  points_of 80 = [884; 883; 884; 884; 874; 878].
Proof.
  intros Ht. apply supported_targets in Ht.
  repeat (apply elem_of_cons in Ht as [-> | Ht]).
  all: try (by apply elem_of_nil in Ht).
  all: split; [vm_compute; by repeat constructor|].
  all: split; [apply not_sorted_by_decide; by vm_compute | by vm_compute].
Qed.

Lemma table_sizes_and_order_witness :
  80 <= 83 <= 92 /\
  Forall (fun c => combination_size c = 11) (getOptimalCombinations 83) /\
  ~ Sorted Z.le (points_of 83).
Proof.
  split; [lia|].
  pose proof (table_sizes_and_order 83 ltac:(lia)) as (H1 & H2 & _).
  by split.
Defined.

End Table.

(** ** The fast path on the inventory of the test suite *)

Section FastPathExample.
Import Index SolverSpec TestData.




End FastPathExample.

(** ** Built-ins: the sort, the loops, the counting object *)

Section Builtins.
Import SolverHelper OptimalCombinations Index SolverSpec.

(** *** [Array.prototype.sort] *)

Section Sort.
Context {A : Type} (cmp : A -> A -> Z).

Lemma sort_insert_perm (x : A) (l : list A) : JS.sort_insert cmp x l ≡ₚ x :: l.
Proof.
  induction l as [|y l IH]; simpl; [done|].
  destruct (cmp x y <=? 0); [done|].
  rewrite IH. apply Permutation_swap.
Qed.

Lemma sort_perm (l : list A) : JS.sort cmp l ≡ₚ l.
Proof.
  induction l as [|x l IH]; simpl; [done|].
  by rewrite sort_insert_perm, IH.
Qed.

Lemma sort_length (l : list A) : length (JS.sort cmp l) = length l.
Proof. by rewrite sort_perm. Qed.

Lemma sort_elem_of (x : A) (l : list A) : x ∈ JS.sort cmp l <-> x ∈ l.
Proof. by rewrite sort_perm. Qed.

Hypothesis cmp_total : forall a b, (JS.cmp_le cmp) a b \/ (JS.cmp_le cmp) b a.

Lemma sort_insert_HdRel (a x : A) (l : list A) :
  (JS.cmp_le cmp) a x -> HdRel (JS.cmp_le cmp) a l -> HdRel (JS.cmp_le cmp) a (JS.sort_insert cmp x l).
Proof.
  intros Hax Hal. destruct l as [|y l]; simpl; [by constructor|].
  destruct (cmp x y <=? 0); constructor; [done|].
  by inversion Hal.
Qed.

Lemma sort_insert_sorted (x : A) (l : list A) :
  Sorted (JS.cmp_le cmp) l -> Sorted (JS.cmp_le cmp) (JS.sort_insert cmp x l).
Proof.
  induction 1 as [|y l Hl IH Hhd]; simpl; [by repeat constructor|].
  destruct (Z.leb_spec (cmp x y) 0) as [Hle|Hgt].
  - constructor; [by constructor | by constructor].
  - constructor; [exact IH|].
    apply sort_insert_HdRel; [|done].
    destruct (cmp_total y x) as [H|H]; [done|]. unfold JS.cmp_le in H. lia.
Qed.

Lemma sort_sorted (l : list A) : Sorted (JS.cmp_le cmp) (JS.sort cmp l).
Proof.
  induction l as [|x l IH]; simpl; [constructor|].
  by apply sort_insert_sorted.
Qed.

End Sort.

Lemma take_sorted {A} (R : A -> A -> Prop) (n : nat) (l : list A) :
  StronglySorted R l -> StronglySorted R (take n l).
Proof.
  intros H. revert n. induction H as [|x l Hl IH Hx]; intros [|n]; simpl;
    try constructor; [apply IH | by apply Forall_take].
Qed.

(** *** The comparators of [calculateSquadSolutions] *)

Lemma by_price_le (a b : solution) :
  JS.cmp_le by_price a b <-> price_then_points a b.
Proof.
  unfold JS.cmp_le, by_price, price_then_points.
  destruct (Z.eqb_spec (price a) (price b)); simpl; lia.
Qed.

Lemma by_points_le (a b : solution) :
  JS.cmp_le by_points a b <-> points_then_price a b.
Proof.
  unfold JS.cmp_le, by_points, points_then_price.
  destruct (Z.eqb_spec (totalRatingPoints a) (totalRatingPoints b)); simpl; lia.
Qed.

#[local] Instance price_then_points_trans : Transitive price_then_points.
Proof. intros a b c. unfold price_then_points. lia. Qed.

#[local] Instance points_then_price_trans : Transitive points_then_price.
Proof. intros a b c. unfold points_then_price. lia. Qed.

Lemma Sorted_impl {A} (R1 R2 : A -> A -> Prop) (l : list A) :
  (forall a b, R1 a b -> R2 a b) -> Sorted R1 l -> Sorted R2 l.
Proof.
  intros HR. induction 1 as [|x l Hl IH Hhd]; constructor; [done|].
  destruct Hhd; constructor. by apply HR.
Qed.

Lemma sort_by_price_sorted (l : list solution) :
  StronglySorted price_then_points (JS.sort by_price l).
Proof.
  apply Sorted_StronglySorted; [apply _|].
  apply Sorted_impl with (JS.cmp_le by_price); [intros a b; apply by_price_le|].
  apply sort_sorted. intros a b. rewrite !by_price_le.
  unfold price_then_points. lia.
Qed.

Lemma sort_by_points_sorted (l : list solution) :
  StronglySorted points_then_price (JS.sort by_points l).
Proof.
  apply Sorted_StronglySorted; [apply _|].
  apply Sorted_impl with (JS.cmp_le by_points); [intros a b; apply by_points_le|].
  apply sort_sorted. intros a b. rewrite !by_points_le.
  unfold points_then_price. lia.
Qed.

(** *** [for ... of] loops that push solutions *)

Lemma for_of_invariant {X S} (step : S -> X -> outcome S) (P : S -> Prop)
    (l : list X) (s s' : S) :
  (forall s x s', x ∈ l -> P s -> step s x = Return s' -> P s') ->
  P s -> for_of step l s = Return s' -> P s'.
Proof.
  revert s. induction l as [|x l IH]; intros s Hstep Hs Hrun; simpl in Hrun.
  - by injection Hrun as <-.
  - destruct (step s x) as [s1|m] eqn:E; simpl in Hrun; [|done].
    apply (IH s1); [|by eapply Hstep; [left| |]|done].
    intros s2 y s3 Hy. apply Hstep. by right.
Qed.

(** *** [getPrice] with a price object *)

Lemma getPrice_obj_fold (m : gmap Z Z) (l : list Z) (a : Z) :
  fold_left (fun acc curr => let* a := acc in
                             let* p := price_of (PricesObj m) curr in
                             Return (a + p)) l (Return a)
  = Return (fold_left (fun a curr => a + default 0 (m !! curr)) l a).
Proof. revert a. induction l as [|x l IH]; intros a; simpl; [done|apply IH]. Qed.

Lemma getPrice_obj (m : gmap Z Z) (l : list Z) :
  getPrice l (PricesObj m)
  = Return (fold_left (fun a curr => a + default 0 (m !! curr)) l 0).
Proof. apply getPrice_obj_fold. Qed.

(** *** [countRatings] counts occurrences *)

Section Counting.
Context `{Countable K}.

Lemma occurrences_cons (k x : K) (l : list K) :
  occurrences k (x :: l) = (if decide (x = k) then 1 else 0) + occurrences k l.
Proof.
  unfold occurrences. rewrite filter_cons.
  destruct (decide (x = k)); simpl length; lia.
Qed.

Lemma occurrences_nonneg (k : K) (l : list K) : 0 <= occurrences k l.
Proof. unfold occurrences. lia. Qed.

Lemma occurrences_pos (k : K) (l : list K) : k ∈ l <-> 0 < occurrences k l.
Proof.
  induction l as [|x l IH].
  - unfold occurrences. simpl. split; [by intros ?%elem_of_nil | lia].
  - rewrite occurrences_cons, elem_of_cons.
    pose proof (occurrences_nonneg k l).
    destruct (decide (x = k)) as [->|Hne]; [split; [lia|by left]|].
    rewrite IH. split; [intros [?|?]; [congruence|lia] | intros; right; lia].
Qed.

Lemma countRatings_fold (l : list K) (acc : gmap K Z) (k : K) :
  default 0 (fold_left
               (fun acc rating => <[rating := default 0 (acc !! rating) + 1]> acc)
               l acc !! k)
  = default 0 (acc !! k) + occurrences k l.
Proof.
  revert acc. induction l as [|x l IH]; intros acc.
  - unfold occurrences. simpl. lia.
  - simpl fold_left. rewrite IH, occurrences_cons.
    destruct (decide (x = k)) as [->|Hne].
    + rewrite lookup_insert_eq. simpl. lia.
    + rewrite lookup_insert_ne by done. lia.
Qed.

(** [counts[k] || 0] is the number of occurrences of [k]. *)
Lemma countRatings_lookup (l : list K) (k : K) :
  default 0 (countRatings l !! k) = occurrences k l.
Proof. unfold countRatings. rewrite countRatings_fold, lookup_empty. simpl. lia. Qed.

End Counting.

(** *** [Object.entries] *)

Lemma elem_of_entries {V} (o : gmap Z V) (k : Z) (v : V) :
  (k, v) ∈ entries o <-> o !! k = Some v.
Proof.
  unfold entries. rewrite merge_sort_Permutation. apply elem_of_map_to_list.
Qed.

Lemma occurrences_numbers (l : list Z) (k : Z) :
  occurrences (Num k) (map Num l) = occurrences k l.
Proof.
  induction l as [|x l IH]; [done|].
  rewrite map_cons, !occurrences_cons, IH.
  destruct (decide (x = k)) as [->|Hne].
  - by rewrite decide_True.
  - rewrite decide_False; [done | congruence].
Qed.

End Builtins.

(** ** The fast path: [actualRating] is the target, not the rating *)

Section FastPath.
Import SolverHelper OptimalCombinations Index SolverSpec.

Lemma optimal_step_actualRating (t : Z) (ac : gmap scalar Z) (p : prices)
    (sols sols' : list solution) (c : gmap Z Z) :
  Forall (fun s => actualRating s = t) sols ->
  optimal_step t ac p sols c = Return sols' ->
  Forall (fun s => actualRating s = t) sols'.
Proof.
  intros Hsols. unfold optimal_step.
  destruct (isCombinationPossible c ac); [|by intros [= <-]].
  destruct (getPrice (combinationToArray c) p) as [pr|m]; simpl; [|done].
  intros [= <-]. apply Forall_app. split; [done|]. by repeat constructor.
Qed.

Lemma optimal_step_obj (t : Z) (ac : gmap scalar Z) (m : gmap Z Z)
    (sols : list solution) (c : gmap Z Z) :
  exists s,
    actualRating s = t /\
    squad s = map (fun '(rating, count) =>
                     {| rating := rating; count := count |}) (entries c) /\
    optimal_step t ac (PricesObj m) sols c
    = Return (if isCombinationPossible c ac then sols ++ [s] else sols).
Proof.
  unfold optimal_step. rewrite getPrice_obj. cbn [bind].
  eexists. split; [|split]; [| |destruct (isCombinationPossible c ac); reflexivity];
    reflexivity.
Qed.

(** With a price object the loop of the fast path never throws; it keeps
    what was pushed and pushes every feasible combination. *)
Lemma for_of_optimal_obj (t : Z) (ac : gmap scalar Z) (m : gmap Z Z)
    (l : list (gmap Z Z)) (acc : list solution) :
  exists sols,
    for_of (optimal_step t ac (PricesObj m)) l acc = Return sols /\
    (forall s, s ∈ acc -> s ∈ sols) /\
    (forall c, c ∈ l -> isCombinationPossible c ac = true ->
       exists s, s ∈ sols /\ actualRating s = t /\
                 squad s = map (fun '(rating, count) =>
                                  {| rating := rating; count := count |})
                               (entries c)).
Proof.
  revert acc. induction l as [|c l IH]; intros acc; cbn [for_of].
  - exists acc. split; [done|]. split; [done|]. by intros c ?%elem_of_nil.
  - destruct (optimal_step_obj t ac m acc c) as (s & Hrating & Hsquad & ->).
    cbn [bind].
    destruct (isCombinationPossible c ac) eqn:Hc.
    + destruct (IH (acc ++ [s])) as (sols & Hrun & Hkeep & Hnew).
      exists sols. split; [exact Hrun|]. split.
      * intros s' Hs. apply Hkeep. apply elem_of_app. by left.
      * intros c' [->|Hc']%elem_of_cons Hposs; [|by apply Hnew].
        exists s. split; [|by split].
        apply Hkeep, elem_of_app. right. by apply list_elem_of_singleton.
    + destruct (IH acc) as (sols & Hrun & Hkeep & Hnew).
      exists sols. split; [exact Hrun|]. split; [exact Hkeep|].
      intros c' [->|Hc']%elem_of_cons Hposs; [congruence|by apply Hnew].
Qed.

Lemma table_80 :
  getOptimalCombinations 80 =
  [ combination [(82, 1); (81, 2); (80, 8)];
    combination [(83, 1); (80, 10)];
    combination [(82, 2); (80, 9)];
    combination [(81, 4); (80, 7)];
    combination [(84, 1); (79, 10)];
    combination [(82, 3); (79, 8)] ].
Proof. by vm_compute. Qed.

Lemma entries_84_79 :
  entries (combination [(84, 1); (79, 10)]) = [(79, 10); (84, 1)].
Proof. by vm_compute. Qed.

Lemma fifth_in_slice {X} (a b c d e f : X) (k : Z) :
  5 <= k -> e ∈ slice0 [a; b; c; d; e; f] k.
Proof.
  intros Hk. unfold slice0.
  change (Z.of_nat (length [a; b; c; d; e; f])) with 6. cbv zeta.
  destruct (Z.ltb_spec k 0) as [?|_]; [lia|].
  assert (exists n, Z.to_nat (Z.min k 6) = S (S (S (S (S n))))) as [n ->].
  { exists (Z.to_nat (Z.min k 6) - 5)%nat. lia. }
  simpl. do 4 right. left.
Qed.

(** C10: every solution returned by [findOptimalSolutions] carries the
    target as its [actualRating]; and for target 80, on every inventory
    with at least one 84 and ten 79s (and at least five combinations
    tried), a returned solution has [actualRating] 80 while the rating
    formula gives 79 on its expanded 11 members. *)
Theorem findOptimalSolutions_actualRating_is_target :
  (forall (options : OptimalOptions.t) (r : result) (s : solution),
     findOptimalSolutions options = Return r -> s ∈ solutions r ->
     actualRating s = OptimalOptions.targetRating options) /\
  (forall (inventory : list scalar) (m : gmap Z Z) (maxSolutions : option Z),
     1 <= occurrences (Num 84) inventory ->
     10 <= occurrences (Num 79) inventory ->
     5 <= default 10 maxSolutions ->
     exists r s,
       findOptimalSolutions
         {| OptimalOptions.targetRating := 80;
            OptimalOptions.availableRatings := Some inventory;
            OptimalOptions.priceByRating := Some (PricesObj m);
            OptimalOptions.maxSolutions := maxSolutions |} = Return r /\
       s ∈ solutions r /\
       actualRating s = 80 /\
       expand_squad (squad s) = repeat 79 10 ++ [84] /\
       getRatingZ (expand_squad (squad s)) = 79).
Proof.
  split.
  - intros options r s. unfold findOptimalSolutions.
    destruct (length _ =? 0)%nat; [by intros [= <-] ?%elem_of_nil|].
    destruct (for_of _ _ _) as [sols|msg] eqn:Hrun; simpl; [|done].
    intros [= <-]. simpl. rewrite sort_elem_of.
    revert s. apply Forall_forall.
    eapply (for_of_invariant _ (Forall (fun s => actualRating s = _)));
      [|constructor|exact Hrun].
    intros s1 c s2 _. apply optimal_step_actualRating.
  - intros inventory m maxSolutions H84 H79 Hmax.
    unfold findOptimalSolutions. cbn [OptimalOptions.targetRating
      OptimalOptions.availableRatings OptimalOptions.priceByRating
      OptimalOptions.maxSolutions default from_option id].
    rewrite table_80. cbn [length Nat.eqb].
    set (ac := countRatings inventory).
    match goal with |- context [for_of ?st ?l ?a] =>
      destruct (for_of_optimal_obj 80 ac m l a) as (sols & Hrun & _ & Hnew) end.
    destruct (Hnew (combination [(84, 1); (79, 10)])) as (s & Hs & Hrating & Hsquad).
    { by apply fifth_in_slice. }
    { unfold isCombinationPossible. rewrite entries_84_79. cbn [forallb].
      unfold ac. rewrite !countRatings_lookup.
      rewrite !andb_true_iff, !negb_true_iff, !Z.ltb_ge. lia. }
    rewrite Hrun. simpl. eexists _, s. split; [reflexivity|]. simpl.
    rewrite sort_elem_of. split; [done|]. split; [done|].
    rewrite Hsquad, entries_84_79. split; by vm_compute.
Qed.

Lemma findOptimalSolutions_actualRating_is_target_witness :
  1 <= occurrences (Num 84) (Num 84 :: repeat (Num 79) 10) /\
  10 <= occurrences (Num 79) (Num 84 :: repeat (Num 79) 10) /\
  exists r s,
    findOptimalSolutions
      {| OptimalOptions.targetRating := 80;
         OptimalOptions.availableRatings := Some (Num 84 :: repeat (Num 79) 10);
         OptimalOptions.priceByRating := Some (PricesObj ∅);
         OptimalOptions.maxSolutions := None |} = Return r /\
    s ∈ solutions r /\
    actualRating s = 80 /\
    expand_squad (squad s) = repeat 79 10 ++ [84] /\
    getRatingZ (expand_squad (squad s)) = 79.
Proof.
  split; [by vm_compute|]. split; [by vm_compute|].
  apply (proj2 findOptimalSolutions_actualRating_is_target);
    by vm_compute.
Defined.

End FastPath.

(** ** The multiset enumerator *)

Section Enumerator.
Import SolverHelper SolverSpec.
Context {A : Type} `{EqDecision A}.
Implicit Types (a rest : list A) (x : A) (k n : nat).

(** The recursive case also describes size 0. *)
Lemma multisubsetsImpl_cons x rest n :
  multisubsetsImpl (x :: rest) n
  = flat_map (fun i => prependNTimes x (multisubsetsImpl rest (n - i)) i)
             (seq 0 (S n)).
Proof. destruct n; [by destruct rest|done]. Qed.

(** *** How many *)

Lemma binomial_small n k : (n < k)%nat -> binomial n k = 0%nat.
Proof.
  revert k. induction n as [|n IH]; intros [|k] Hlt; simpl; try lia.
  rewrite !IH by lia. done.
Qed.

Lemma length_flat_map_ext {X Y Z'} (f : X -> list Y) (g : X -> list Z')
    (l : list X) :
  (forall i, i ∈ l -> length (f i) = length (g i)) ->
  length (flat_map f l) = length (flat_map g l).
Proof.
  induction l as [|i l IH]; intros Hfg; simpl; [done|].
  rewrite !length_app, Hfg by left. rewrite IH; [done|].
  intros j Hj. apply Hfg. by right.
Qed.

Lemma length_prependNTimes x (xss : list (list A)) n :
  length (prependNTimes x xss n) = length xss.
Proof. unfold prependNTimes. by rewrite length_map. Qed.

Lemma length_multisubsetsImpl_step x rest n :
  length (multisubsetsImpl (x :: rest) (S n))
  = (length (multisubsetsImpl rest (S n))
     + length (multisubsetsImpl (x :: rest) n))%nat.
Proof.
  rewrite (multisubsetsImpl_cons x rest (S n)), (multisubsetsImpl_cons x rest n).
  change (seq 0 (S (S n))) with (0%nat :: seq 1 (S n)).
  rewrite <- seq_shift. cbn [flat_map].
  rewrite length_app, length_prependNTimes, Nat.sub_0_r. f_equal.
  rewrite flat_map_concat_map, map_map, <- flat_map_concat_map.
  apply length_flat_map_ext. intros i _.
  by rewrite !length_prependNTimes.
Qed.

Lemma length_multisubsetsImpl a k :
  length (multisubsetsImpl a k) = binomial (length a + k - 1) k.
Proof.
  revert k. induction a as [|x rest IH]; intros k.
  - destruct k as [|k]; [done|]. simpl. rewrite binomial_small; [done|lia].
  - induction k as [|n IHn]; [by destruct (length (x :: rest) + 0 - 1)%nat|].
    rewrite length_multisubsetsImpl_step, IH, IHn. simpl length.
    replace (length rest + S n - 1)%nat with (length rest + n)%nat by lia.
    replace (S (length rest) + n - 1)%nat with (length rest + n)%nat by lia.
    replace (S (length rest) + S n - 1)%nat with (S (length rest + n)) by lia.
    simpl. lia.
Qed.

(** *** What they are *)

Lemma multisubsetsImpl_length a k :
  Forall (fun xs => length xs = k) (multisubsetsImpl a k).
Proof.
  revert k. induction a as [|x rest IH]; intros k.
  - destruct k; simpl; by repeat constructor.
  - rewrite multisubsetsImpl_cons. apply Forall_flat_map, Forall_forall.
    intros i Hi. first [apply in_seq in Hi | apply elem_of_seq in Hi].
    unfold prependNTimes.
    apply Forall_map. eapply Forall_impl; [apply (IH (k - i)%nat)|].
    intros xs Hxs. simpl in *. rewrite length_app, repeat_length. lia.
Qed.

Lemma multisubsetsImpl_subseteq a k (xs : list A) :
  xs ∈ multisubsetsImpl a k -> xs ⊆ a.
Proof.
  revert k xs. induction a as [|x rest IH]; intros k xs.
  - destruct k; simpl; [|by intros ?%elem_of_nil].
    intros ->%list_elem_of_singleton. done.
  - rewrite multisubsetsImpl_cons, list_elem_of_In, in_flat_map.
    intros (i & _ & Hxs). unfold prependNTimes in Hxs.
    apply in_map_iff in Hxs as (ys & <- & Hys%list_elem_of_In).
    intros y [Hy|Hy]%elem_of_app.
    + apply list_elem_of_In, repeat_spec in Hy as ->. by left.
    + right. by apply (IH _ _ Hys).
Qed.

(** *** No multiset twice *)

Lemma all_distinct_app (l1 l2 : list (list A)) :
  all_distinct l1 -> all_distinct l2 ->
  (forall xs ys, xs ∈ l1 -> ys ∈ l2 -> ~ xs ≡ₚ ys) ->
  all_distinct (l1 ++ l2).
Proof.
  intros H1 H2 Hcross. induction l1 as [|xs l1 IH]; simpl; [done|].
  destruct H1 as [Hxs H1]. split.
  - apply Forall_app. split; [done|]. apply Forall_forall.
    intros ys Hys. apply Hcross; [by left|done].
  - apply IH; [done|]. intros ys zs Hys. apply Hcross. by right.
Qed.

Lemma all_distinct_prepend x (xss : list (list A)) n :
  all_distinct xss -> all_distinct (prependNTimes x xss n).
Proof.
  unfold prependNTimes. induction xss as [|xs xss IH]; simpl; [done|].
  intros [Hxs Hrest]. split; [|by apply IH].
  apply Forall_map. eapply Forall_impl; [exact Hxs|].
  intros ys Hne Hperm. simpl in Hperm. apply Hne.
  by apply (inj (app (repeat x n))) in Hperm.
Qed.

Lemma all_distinct_lookup (l : list (list A)) :
  all_distinct l -> distinct_multisets l.
Proof.
  induction l as [|zs l IH]; intros Hl i j xs ys Hi Hj Hperm.
  - by rewrite lookup_nil in Hi.
  - destruct Hl as [Hzs Hl]. rewrite Forall_forall in Hzs.
    destruct i as [|i], j as [|j]; simpl in Hi, Hj.
    + done.
    + injection Hi as ->. exfalso. apply (Hzs ys); [|done].
      by eapply list_elem_of_lookup_2.
    + injection Hj as ->. exfalso. apply (Hzs xs); [|done].
      by eapply list_elem_of_lookup_2.
    + f_equal. by apply (IH Hl i j xs ys).
Qed.

Lemma occurrences_perm x (xs ys : list A) :
  xs ≡ₚ ys -> occurrences x xs = occurrences x ys.
Proof. unfold occurrences. by intros ->. Qed.

Lemma occurrences_app x (xs ys : list A) :
  occurrences x (xs ++ ys) = occurrences x xs + occurrences x ys.
Proof. unfold occurrences. rewrite filter_app, length_app. lia. Qed.

Lemma occurrences_repeat x n : occurrences x (repeat x n) = Z.of_nat n.
Proof.
  induction n as [|n IH]; [done|].
  simpl repeat. rewrite occurrences_cons, IH, decide_True by done. lia.
Qed.

Lemma occurrences_absent x (xs : list A) : x ∉ xs -> occurrences x xs = 0.
Proof.
  intros Hx. pose proof (occurrences_nonneg x xs).
  destruct (decide (0 < occurrences x xs)) as [Hpos|]; [|lia].
  by apply occurrences_pos in Hpos.
Qed.

(** An output that takes [x] exactly [i] times. *)
Lemma occurrences_prepended x rest k i (zs : list A) :
  x ∉ rest ->
  zs ∈ prependNTimes x (multisubsetsImpl rest k) i ->
  occurrences x zs = Z.of_nat i.
Proof.
  intros Hx Hzs. unfold prependNTimes in Hzs.
  apply list_elem_of_In, in_map_iff in Hzs as (ys & <- & Hys%list_elem_of_In).
  rewrite occurrences_app, occurrences_repeat, occurrences_absent; [lia|].
  intros Hin. apply Hx. by apply (multisubsetsImpl_subseteq _ _ _ Hys).
Qed.

Lemma multisubsetsImpl_all_distinct a k :
  NoDup a -> all_distinct (multisubsetsImpl a k).
Proof.
  intros Ha. revert k. induction Ha as [|x rest Hx Hrest IH]; intros k.
  - destruct k; simpl; [by split|done].
  - rewrite multisubsetsImpl_cons.
    assert (NoDup (seq 0 (S k))) as Hseq by apply NoDup_seq.
    revert Hseq. generalize (seq 0 (S k)). intros idx His.
    induction His as [|i idx Hi His IHis]; simpl; [done|].
    apply all_distinct_app; [by apply all_distinct_prepend | exact IHis |].
    intros xs ys Hxs Hys Hperm.
    apply list_elem_of_In, in_flat_map in Hys as (j & Hj%list_elem_of_In & Hys%list_elem_of_In).
    apply (occurrences_perm x) in Hperm.
    rewrite (occurrences_prepended x rest _ i xs Hx Hxs) in Hperm.
    rewrite (occurrences_prepended x rest _ j ys Hx Hys) in Hperm.
    apply Hi. by replace i with j by lia.
Qed.

(** C4: on an alphabet of pairwise distinct elements and for every size
    [k], [getMultisubsets] yields C(|a| + k - 1, k) sequences, each of
    length [k], no two equal as multisets; size 0 yields the empty
    sequence alone, and an empty alphabet with [k > 0] yields nothing. *)
Theorem getMultisubsets_stars_and_bars a k :
  NoDup a ->
  length (getMultisubsets a k) = binomial (length a + k - 1) k /\
  Forall (fun xs => length xs = k) (getMultisubsets a k) /\
  distinct_multisets (getMultisubsets a k) /\
  (k = 0%nat -> getMultisubsets a k = [[]]) /\
  (a = [] -> (0 < k)%nat -> getMultisubsets a k = []).
Proof.
  intros Ha. unfold getMultisubsets. split; [apply length_multisubsetsImpl|].
  split; [apply multisubsetsImpl_length|].
  split; [by apply all_distinct_lookup, multisubsetsImpl_all_distinct|].
  split.
  - intros ->. by destruct a.
  - intros -> Hk. destruct k; [lia|done].
Qed.

End Enumerator.

Lemma getMultisubsets_stars_and_bars_witness :
  NoDup [82; 83; 84] /\
  length (SolverHelper.getMultisubsets [82; 83; 84] 2) = 6%nat /\
  SolverSpec.distinct_multisets (SolverHelper.getMultisubsets [82; 83; 84] 2).
Proof.
  assert (NoDup [82; 83; 84]) as Hnd.
  { repeat constructor; rewrite ?elem_of_cons, ?elem_of_nil; intros H; lia. }
  split; [exact Hnd|].
  pose proof (getMultisubsets_stars_and_bars [82; 83; 84] 2 Hnd) as (Hn & _ & Hd & _).
  split; [exact Hn | exact Hd].
Defined.

(** ** The exhaustive path: order, size and feasibility of the result *)

Section Exhaustive.
Import SolverHelper OptimalCombinations Index SolverSpec.

Lemma slice0_positive {X} (l : list X) (e : Z) :
  0 < e -> exists n, slice0 l e = take n l /\ Z.of_nat (length (take n l)) <= e.
Proof.
  intros He. unfold slice0. destruct (Z.ltb_spec e 0) as [?|_]; [lia|].
  eexists. split; [reflexivity|]. rewrite length_take. lia.
Qed.

(** What the [try] block returns, case by case. *)
Lemma calculateSquadSolutions_try_cases (t : Z) (ex av : list Z) (p : prices)
    (size maxS : Z) (sortByPrice : bool) (r : result) :
  calculateSquadSolutions_try t ex av p size maxS sortByPrice = Return r ->
  (length (solutions r) <= 1)%nat /\
  (forall s, s ∈ solutions r -> squad s = [] /\ combinationUsed s = None) \/
  exists sols,
    for_of (squad_step t ex (countRatings av) p)
           (getMultisubsets av (Z.to_nat (size - Z.of_nat (length ex)))) []
    = Return sols /\
    solutions r =
      (let sorted := if sortByPrice then JS.sort by_price sols
                     else JS.sort by_points sols in
       if negb (maxS =? 0) && (maxS >? 0) then slice0 sorted maxS else sorted).
Proof.
  unfold calculateSquadSolutions_try.
  destruct ((t >? 99) || (t <? 45)).
  { intros [= <-]. left. simpl. split; [lia|]. by intros s ?%elem_of_nil. }
  destruct (size - Z.of_nat (length ex) <=? 0).
  { destruct (getRatingZ ex >=? t); intros [= <-]; left; simpl.
    - split; [lia|]. by intros s ->%list_elem_of_singleton.
    - split; [lia|]. by intros s ?%elem_of_nil. }
  destruct (for_of _ _ _) as [sols|m] eqn:Hrun; simpl; [|done].
  intros [= <-]. right. exists sols. by split.
Qed.

Lemma sorted_short {X} (R : X -> X -> Prop) (l : list X) :
  (length l <= 1)%nat -> StronglySorted R l.
Proof.
  destruct l as [|x [|y l]]; simpl; intros Hl; [constructor| |lia].
  by repeat constructor.
Qed.

(** C5, as stated, fails for [maxSolutions = 0]: nothing is truncated and
    two solutions are returned. *)
Lemma maxSolutions_zero_not_a_bound :
  exists r,
    findSquadSolutions (new_calculator None None)
      {| SquadOptions.targetRating := Num 85;
         SquadOptions.existingRatings := Arr (repeat (Num 85) 10);
         SquadOptions.availableRatings := Arr [Num 85; Num 86];
         SquadOptions.priceByRating := None;
         SquadOptions.squadSize := Undefined;
         SquadOptions.maxSolutions := Some 0;
         SquadOptions.sortByPrice := None;
         SquadOptions.useOptimalCombinations := None |} = Return r /\
    length (solutions r) = 2%nat /\
    ~ Z.of_nat (length (solutions r)) <= 0.
Proof. eexists. split; [by vm_compute|]. simpl. split; [done|lia]. Qed.

(** The result of [calculateSquadSolutions] is sorted by the chosen
    comparator and no longer than a positive bound. *)
Lemma calculateSquadSolutions_sorted (t : Z) (ex av : list Z)
    (p : prices) (size maxS : Z) (sortByPrice : bool) (r : result) :
  calculateSquadSolutions t ex av p size maxS sortByPrice = Return r ->
  (if sortByPrice then StronglySorted price_then_points (solutions r)
   else StronglySorted points_then_price (solutions r)) /\
  (0 < maxS -> Z.of_nat (length (solutions r)) <= maxS).
Proof.
  unfold calculateSquadSolutions.
  destruct (calculateSquadSolutions_try _ _ _ _ _ _ _) as [r'|m] eqn:Htry.
  2:{ intros [= <-]. simpl. split; [destruct sortByPrice; constructor | lia]. }
  intros [= ->].
  apply calculateSquadSolutions_try_cases in Htry as [[Hshort _]|(sols & _ & ->)].
  { split; [destruct sortByPrice; by apply sorted_short | lia]. }
  cbv zeta.
  destruct (Z.eqb_spec maxS 0) as [->|Hne]; simpl.
  { split; [|lia].
    destruct sortByPrice; [apply sort_by_price_sorted | apply sort_by_points_sorted]. }
  destruct (Z.gtb_spec maxS 0) as [Hpos|Hneg].
  - destruct (slice0_positive
                (if sortByPrice then JS.sort by_price sols
                 else JS.sort by_points sols) maxS) as (n & -> & Hlen); [lia|].
    split; [|done].
    destruct sortByPrice; apply take_sorted;
      [apply sort_by_price_sorted | apply sort_by_points_sorted].
  - split; [|lia].
    destruct sortByPrice; [apply sort_by_price_sorted | apply sort_by_points_sorted].
Qed.

(** *** Feasibility *)

(** A solution asks of no rating more copies than the inventory holds. *)
Lemma hasEnoughCards_spec (av comb : list Z) :
  hasEnoughCards (countRatings av) (countRatings comb) = true ->
  forall rating count,
    (rating, count) ∈ entries (countRatings comb) ->
    count = occurrences rating comb /\ count <= occurrences rating av.
Proof.
  unfold hasEnoughCards. rewrite forallb_forall.
  intros Hall rating count Hin.
  specialize (Hall (rating, count) (proj1 (list_elem_of_In _ _) Hin)).
  simpl in Hall. rewrite countRatings_lookup in Hall.
  apply negb_true_iff, Z.ltb_ge in Hall.
  apply elem_of_entries in Hin.
  pose proof (countRatings_lookup comb rating) as Hc. rewrite Hin in Hc.
  simpl in Hc. split; [done|lia].
Qed.

Lemma hasEnoughCards_all (av comb : list Z) (k : Z) :
  hasEnoughCards (countRatings av) (countRatings comb) = true ->
  occurrences k comb <= occurrences k av.
Proof.
  intros Hall. pose proof (occurrences_nonneg k av).
  destruct (countRatings comb !! k) as [c|] eqn:E.
  - apply elem_of_entries in E.
    destruct (hasEnoughCards_spec av comb Hall k c E). lia.
  - pose proof (countRatings_lookup comb k) as Hc. rewrite E in Hc.
    simpl in Hc. lia.
Qed.

Lemma squad_step_feasible (t : Z) (ex av : list Z) (p : prices)
    (sols sols' : list solution) (comb : list Z) :
  Forall (feasible (map Num av)) sols ->
  squad_step t ex (countRatings av) p sols comb = Return sols' ->
  Forall (feasible (map Num av)) sols'.
Proof.
  intros Hsols. unfold squad_step.
  destruct (hasEnoughCards _ _) eqn:Hen; simpl; [|by intros [= <-]].
  destruct (getRatingZ (ex ++ comb) <? t); [by intros [= <-]|].
  destruct (getPrice comb p) as [pr|m]; simpl; [|done].
  intros [= <-]. apply Forall_app. split; [done|].
  constructor; [|constructor]. split; simpl.
  - intros g Hg. apply list_elem_of_In, in_map_iff in Hg as ([rt c] & <- & Hin).
    apply list_elem_of_In in Hin. simpl. rewrite occurrences_numbers.
    by destruct (hasEnoughCards_spec av comb Hen rt c Hin).
  - intros combination k [= <-]. rewrite occurrences_numbers.
    by apply hasEnoughCards_all.
Qed.

Lemma elem_of_slice0 {X} (l : list X) (e : Z) (x : X) : x ∈ slice0 l e -> x ∈ l.
Proof. unfold slice0. apply subseteq_take. Qed.

(** Every solution in the result of [calculateSquadSolutions] is feasible
    against [ratingsToTry]. *)
Lemma calculateSquadSolutions_feasible (t : Z) (ex av : list Z)
    (p : prices) (size maxS : Z) (sortByPrice : bool) (r : result)
    (s : solution) :
  calculateSquadSolutions t ex av p size maxS sortByPrice = Return r ->
  s ∈ solutions r ->
  feasible (map Num av) s.
Proof.
  unfold calculateSquadSolutions.
  destruct (calculateSquadSolutions_try _ _ _ _ _ _ _) as [r'|m] eqn:Htry.
  2:{ intros [= <-]. simpl. by intros ?%elem_of_nil. }
  intros [= ->] Hs.
  apply calculateSquadSolutions_try_cases in Htry as [[_ Hnone]|(sols & Hrun & Hr)].
  { destruct (Hnone s Hs) as [Hsq Hcomb]. split.
    - rewrite Hsq. by intros g ?%elem_of_nil.
    - rewrite Hcomb. by intros. }
  assert (Forall (feasible (map Num av)) sols) as Hall.
  { eapply (for_of_invariant _ (Forall (feasible (map Num av))));
      [|constructor|exact Hrun].
    intros s1 c s2 _. apply squad_step_feasible. }
  rewrite Forall_forall in Hall. apply Hall.
  rewrite Hr in Hs. cbv zeta in Hs.
  assert (s ∈ (if sortByPrice then JS.sort by_price sols
               else JS.sort by_points sols)) as Hsorted.
  { destruct (negb (maxS =? 0) && (maxS >? 0)); [by apply elem_of_slice0 in Hs|done]. }
  destruct sortByPrice; by apply sort_elem_of in Hsorted.
Qed.

End Exhaustive.

(** ** Validation *)

Section Validation.
Import SolverHelper OptimalCombinations Index SolverSpec.

Lemma bad_rating_false (r : scalar) : bad_rating r = false <-> rating_ok r.
Proof.
  unfold bad_rating, rating_ok, js_lt, js_gt.
  destruct r as [| |b|n]; simpl;
    try (split; [done | by intros (n' & [=] & _)]).
  rewrite !orb_false_iff, Z.ltb_ge, Z.gtb_ltb, Z.ltb_ge. split.
  - intros (? & ?). exists n. split; [done|lia].
  - intros (n' & [= <-] & ?). repeat split; lia.
Qed.

Lemma bad_size_false (s : scalar) :
  negb (is_number s) || js_lt s 1 || js_gt s 23 = false <-> size_ok s.
Proof.
  unfold size_ok, js_lt, js_gt.
  destruct s as [| |b|n]; simpl;
    try (split; [done | by intros (n' & [=] & _)]).
  rewrite !orb_false_iff, Z.ltb_ge, Z.gtb_ltb, Z.ltb_ge. split.
  - intros (? & ?). exists n. split; [done|lia].
  - intros (n' & [= <-] & ?). repeat split; lia.
Qed.

Lemma rating_errors_nil (label : string) (i : nat) (l : list scalar) :
  rating_errors label i l = [] <-> Forall rating_ok l.
Proof.
  revert i. induction l as [|r l IH]; intros i; simpl; [by split|].
  rewrite Forall_cons, <- (IH (S i)), <- bad_rating_false.
  destruct (bad_rating r); simpl; [split; [done|by intros [? _]]|].
  split; [by intros ->|by intros [_ ->]].
Qed.


Lemma array_errors_nil (notArray label : string) (v : value) :
  array_errors notArray label v = [] <-> ratings_ok v.
Proof.
  unfold array_errors, ratings_ok. destruct v as [s|l].
  - split; [done|by intros (l & [=] & _)].
  - rewrite rating_errors_nil. split; [by exists l|by intros (l' & [= <-] & ?)].
Qed.

Lemma exceeds_false (e : value) (s : scalar) :
  size_ok s -> exceeds e s = false -> fits e s.
Proof.
  intros (n & -> & Hn) Hex l n' -> [= <-]. simpl in Hex.
  destruct (Z.eqb_spec n 0); [lia|]. simpl in Hex. lia.
Qed.


Lemma app_nil_inv {X} (l1 l2 : list X) : l1 ++ l2 = [] -> l1 = [] /\ l2 = [].
Proof. by destruct l1, l2. Qed.

Lemma validateInputs_valid (t : scalar) (e a : value) (s : scalar) :
  valid (validateInputs t e a s) = true ->
  rating_ok t /\ ratings_ok e /\ ratings_ok a /\ size_ok s /\ fits e s.
Proof.
  unfold validateInputs. cbn [valid]. intros Hlen%Nat.eqb_eq%nil_length_inv.
  apply app_nil_inv in Hlen as [H1 Hlen]. apply app_nil_inv in Hlen as [H2 Hlen].
  apply app_nil_inv in Hlen as [H3 Hlen]. apply app_nil_inv in Hlen as [H4 H5].
  assert (size_ok s) as Hs.
  { apply bad_size_false. by destruct (_ || _ || _). }
  split; [apply bad_rating_false; by destruct (bad_rating t)|].
  split; [by eapply array_errors_nil|]. split; [by eapply array_errors_nil|].
  split; [done|]. apply exceeds_false; [done|]. by destruct (exceeds e s).
Qed.






End Validation.

(** ** The entry point: a full roster, and what can throw *)

Section EntryPoint.
Import SolverHelper OptimalCombinations Index SolverSpec.

Lemma numbers_of_ok (l : list scalar) :
  Forall rating_ok l -> length (numbers_of l) = length l.
Proof.
  induction 1 as [|r l (n & -> & _) _ IH]; [done|].
  change (numbers_of (Num n :: l)) with (n :: numbers_of l).
  simpl. by rewrite IH.
Qed.

(** The fast-path test passes only for a number in [80, 92] and an array
    of more than 50 available ratings: the fast path's [match] has no
    other case to serve. *)
Lemma fast_path_test_true (e a : value) (u : bool) (t : scalar) :
  fast_path_test e u t a = Return true ->
  exists n l, t = Num n /\ 80 <= n <= 92 /\ a = Arr l /\
              50 < Z.of_nat (length l) /\ e = Arr [].
Proof.
  unfold fast_path_test.
  destruct (length_of e) as [len|] eqn:He; cbn [bind]; [|done].
  destruct (bool_decide (len = Some 0)) eqn:Hlen; cbn [negb]; [|done].
  destruct u; cbn [negb]; [|done].
  destruct (js_ge t 80) eqn:Hge; cbn [negb]; [|done].
  destruct (js_le t 92) eqn:Hle; cbn [negb]; [|done].
  destruct (length_of a) as [alen|] eqn:Ha; cbn [bind]; [|done].
  intros [= Hgt].
  destruct alen as [n50|]; [|done].
  destruct a as [[| |?|?]|l]; try done. injection Ha as <-.
  apply bool_decide_eq_true in Hlen as ->.
  destruct e as [[| |?|?]|[|x ex]]; try done.
  unfold js_ge, js_le in Hge, Hle.
  destruct t as [| |[|]|n]; simpl in Hge, Hle; try done.
  exists n, l. repeat split; try done; lia.
Qed.

(** A roster that is not empty closes the fast path. *)
Lemma fast_path_closed (this : SBCRatingCalculator) (options : SquadOptions.t)
    (ex : list scalar) :
  existingRatings_of options = Arr ex -> ex <> [] ->
  fast_path this options = Return None.
Proof.
  intros He Hne. unfold fast_path, fast_path_test. rewrite He. cbn [length_of bind].
  rewrite bool_decide_eq_false_2; [done|].
  intros [= Hlen]. destruct ex; [done|]. simpl in Hlen. lia.
Qed.

(** C7, as stated, fails on the [efficiency] field: the full-roster
    solution carries 0, not [totalRatingPoints / max(actualRating, 1)]
    (here 935 / 85 = 11). *)
Lemma full_roster_efficiency_is_zero :
  exists r s,
    findSquadSolutions (new_calculator None None)
      {| SquadOptions.targetRating := Num 85;
         SquadOptions.existingRatings := Arr (repeat (Num 85) 11);
         SquadOptions.availableRatings := Arr [Num 85; Num 86];
         SquadOptions.priceByRating := None;
         SquadOptions.squadSize := Num 11;
         SquadOptions.maxSolutions := None;
         SquadOptions.sortByPrice := None;
         SquadOptions.useOptimalCombinations := None |} = Return r /\
    solutions r = [s] /\
    actualRating s = 85 /\ totalRatingPoints s = 935 /\
    (efficiency s == 0)%Q /\
    ~ (efficiency s ==
       inject_Z (totalRatingPoints s) / inject_Z (Z.max (actualRating s) 1))%Q.
Proof.
  eexists _, _. split; [by vm_compute|]. split; [reflexivity|]. simpl.
  repeat split. by vm_compute.
Qed.

(** C7, amended: for a call that passes validation with
    [squadSize - existingRatings.length <= 0], when the rating of the
    existing roster reaches the target the result is exactly one solution
    with price 0, an empty squad, that rating as [actualRating], the sum
    of the existing ratings as [totalRatingPoints] and [efficiency] 0;
    otherwise it has no solution. *)
Theorem findSquadSolutions_full_roster (this : SBCRatingCalculator)
    (options : SquadOptions.t) (t : Z) (ex : list scalar) (size : Z) :
  valid (validateInputs (SquadOptions.targetRating options)
           (existingRatings_of options) (availableRatings_of options)
           (squadSize_of this options)) = true ->
  SquadOptions.targetRating options = Num t ->
  existingRatings_of options = Arr ex ->
  squadSize_of this options = Num size ->
  size - Z.of_nat (length ex) <= 0 ->
  let currentRating := getRatingZ (numbers_of ex) in
  findSquadSolutions this options
  = Return (if currentRating >=? t then
              {| error := None;
                 solutionsFound := 1;
                 solutions :=
                   [{| price := 0;
                       squad := [];
                       actualRating := currentRating;
                       totalRatingPoints := sum_ratings (numbers_of ex);
                       efficiency := 0;
                       isOptimal := None;
                       combinationUsed := None |}];
                 message := None |}
            else
              {| error := None; solutionsFound := 0; solutions := [];
                 message := None |}).
Proof.
  intros Hvalid Ht He Hs Hfull currentRating.
  pose proof (validateInputs_valid _ _ _ _ Hvalid)
    as (Hrt & (ex' & He' & Hex) & (av & Ha & Hav) & Hsz & Hfit).
  rewrite He in He'. injection He' as <-.
  destruct Hrt as (t' & Ht' & Hrange). rewrite Ht in Ht'. injection Ht' as <-.
  destruct Hsz as (size' & Hs' & Hsize). rewrite Hs in Hs'. injection Hs' as <-.
  unfold findSquadSolutions.
  rewrite (fast_path_closed this options ex He)
    by (intros ->; simpl in Hfull; lia).
  cbn [bind]. rewrite Hvalid. cbn [negb]. rewrite Ht, He, Ha, Hs.
  unfold calculateSquadSolutions, calculateSquadSolutions_try.
  replace ((t >? 99) || (t <? 45)) with false by lia.
  rewrite numbers_of_ok by done.
  replace (size - Z.of_nat (length ex) <=? 0) with true by lia.
  fold currentRating. by destruct (currentRating >=? t).
Qed.

Lemma findSquadSolutions_full_roster_witness :
  let this := new_calculator None None in
  let options :=
    {| SquadOptions.targetRating := Num 85;
       SquadOptions.existingRatings := Arr (repeat (Num 85) 11);
       SquadOptions.availableRatings := Arr [Num 85; Num 86];
       SquadOptions.priceByRating := None;
       SquadOptions.squadSize := Undefined;
       SquadOptions.maxSolutions := None;
       SquadOptions.sortByPrice := None;
       SquadOptions.useOptimalCombinations := None |} in
  findSquadSolutions this options
  = Return {| error := None;
              solutionsFound := 1;
              solutions :=
                [{| price := 0; squad := []; actualRating := 85;
                    totalRatingPoints := 935; efficiency := 0;
                    isOptimal := None; combinationUsed := None |}];
              message := None |}.
Proof.
  intros this options.
  refine (eq_trans
            (findSquadSolutions_full_roster this options 85
               (repeat (Num 85) 11) 11 _ _ _ _ _) _).
  all: reflexivity.
Defined.

(** *** The exhaustive path, seen from [findSquadSolutions] *)

Lemma numbers_of_map (l : list scalar) :
  Forall rating_ok l -> map Num (numbers_of l) = l.
Proof.
  induction 1 as [|r l (n & -> & _) _ IH]; [done|].
  change (numbers_of (Num n :: l)) with (n :: numbers_of l).
  simpl. by rewrite IH.
Qed.

(** When the fast path does not answer, the call ends in a validation
    error (no solution) or in [calculateSquadSolutions] on the validated
    numbers. *)
Lemma findSquadSolutions_exhaustive (this : SBCRatingCalculator)
    (options : SquadOptions.t) (r : result) :
  fast_path this options = Return None ->
  findSquadSolutions this options = Return r ->
  solutions r = [] \/
  exists t ex av size,
    availableRatings_of options = Arr av /\ Forall rating_ok av /\
    calculateSquadSolutions t (numbers_of ex) (numbers_of av)
      (priceByRating_of options) size (maxSolutions_of this options)
      (sortByPrice_of options) = Return r.
Proof.
  intros Hfast. unfold findSquadSolutions. rewrite Hfast. cbn [bind].
  destruct (valid _) eqn:Hvalid; cbn [negb]; [|intros [= <-]; by left].
  apply validateInputs_valid in Hvalid
    as ((t & -> & _) & (ex & -> & _) & (av & Ha & Hav) & (size & -> & _) & _).
  rewrite Ha. intros Hr. right. by exists t, ex, av, size.
Qed.

(** C5, amended: the solutions returned by the exhaustive path of
    [findSquadSolutions] are sorted ascending by price, ties ascending by
    total rating points, when [sortByPrice] is true, and ascending by
    total rating points, ties ascending by price, when it is false; their
    number does not exceed a positive [maxSolutions]. *)
Theorem findSquadSolutions_sorted_bounded (this : SBCRatingCalculator)
    (options : SquadOptions.t) (r : result) :
  fast_path this options = Return None ->
  findSquadSolutions this options = Return r ->
  (if sortByPrice_of options
   then StronglySorted price_then_points (solutions r)
   else StronglySorted points_then_price (solutions r)) /\
  (0 < maxSolutions_of this options ->
   Z.of_nat (length (solutions r)) <= maxSolutions_of this options).
Proof.
  intros Hfast Hr.
  destruct (findSquadSolutions_exhaustive this options r Hfast Hr)
    as [Hnil|(t & ex & av & size & _ & _ & Hcalc)].
  - rewrite Hnil. simpl. split; [destruct (sortByPrice_of options); constructor|lia].
  - by apply calculateSquadSolutions_sorted in Hcalc.
Qed.

Lemma findSquadSolutions_sorted_bounded_witness :
  let this := new_calculator None None in
  let options :=
    {| SquadOptions.targetRating := Num 85;
       SquadOptions.existingRatings := Arr (repeat (Num 85) 10);
       SquadOptions.availableRatings := Arr [Num 86; Num 85];
       SquadOptions.priceByRating :=
         Some (PricesObj (list_to_map [(85, 1200); (86, 1500)]));
       SquadOptions.squadSize := Undefined;
       SquadOptions.maxSolutions := Some 1;
       SquadOptions.sortByPrice := None;
       SquadOptions.useOptimalCombinations := None |} in
  exists r,
    fast_path this options = Return None /\
    findSquadSolutions this options = Return r /\
    map price (solutions r) = [1200] /\
    StronglySorted price_then_points (solutions r) /\
    (0 < 1 -> Z.of_nat (length (solutions r)) <= 1).
Proof.
  intros this options. eexists.
  split; [by vm_compute|]. split; [by vm_compute|]. split; [reflexivity|].
  apply (findSquadSolutions_sorted_bounded this options); by vm_compute.
Defined.

(** C6: every solution returned by the exhaustive path of
    [findSquadSolutions] is feasible against the inventory: each group
    [(rating, count)] of its squad, and each rating of the combination it
    was built from, occurs at least that often in [availableRatings]. *)
Theorem findSquadSolutions_feasible (this : SBCRatingCalculator)
    (options : SquadOptions.t) (r : result) (s : solution)
    (available : list scalar) :
  fast_path this options = Return None ->
  findSquadSolutions this options = Return r ->
  availableRatings_of options = Arr available ->
  s ∈ solutions r ->
  feasible available s.
Proof.
  intros Hfast Hr Ha Hs.
  destruct (findSquadSolutions_exhaustive this options r Hfast Hr)
    as [Hnil|(t & ex & av & size & Ha' & Hav & Hcalc)].
  - rewrite Hnil in Hs. by apply elem_of_nil in Hs.
  - rewrite Ha in Ha'. injection Ha' as <-.
    rewrite <- (numbers_of_map available Hav).
    by apply (calculateSquadSolutions_feasible _ _ _ _ _ _ _ _ _ Hcalc).
Qed.

Lemma findSquadSolutions_feasible_witness :
  let this := new_calculator None None in
  let options :=
    {| SquadOptions.targetRating := Num 85;
       SquadOptions.existingRatings := Arr (repeat (Num 85) 9);
       SquadOptions.availableRatings := Arr [Num 86; Num 85; Num 86];
       SquadOptions.priceByRating := None;
       SquadOptions.squadSize := Undefined;
       SquadOptions.maxSolutions := Some 1;
       SquadOptions.sortByPrice := Some false;
       SquadOptions.useOptimalCombinations := None |} in
  exists r s,
    fast_path this options = Return None /\
    findSquadSolutions this options = Return r /\
    s ∈ solutions r /\
    combinationUsed s = Some [85; 86] /\
    feasible [Num 86; Num 85; Num 86] s.
Proof.
  intros this options. eexists _, _.
  split; [by vm_compute|]. split; [by vm_compute|].
  split; [by left|]. split; [reflexivity|].
  eapply (findSquadSolutions_feasible this options);
    [by vm_compute | by vm_compute | reflexivity | by left].
Defined.

(** *** Exceptions *)

Lemma findOptimalSolutions_obj (t : Z) (available : list scalar)
    (m : gmap Z Z) (maxS : option Z) :
  exists r,
    findOptimalSolutions
      {| OptimalOptions.targetRating := t;
         OptimalOptions.availableRatings := Some available;
         OptimalOptions.priceByRating := Some (PricesObj m);
         OptimalOptions.maxSolutions := maxS |} = Return r.
Proof.
  unfold findOptimalSolutions. cbn [OptimalOptions.targetRating
    OptimalOptions.availableRatings OptimalOptions.priceByRating
    OptimalOptions.maxSolutions default from_option id].
  destruct (length _ =? 0)%nat; [by eexists|].
  match goal with |- context [for_of ?st ?l ?a] =>
    destruct (for_of_optimal_obj t (countRatings available) m l a)
      as (sols & Hrun & _) end.
  rewrite Hrun. by eexists.
Qed.







End EntryPoint.

(** * Further properties *)

(** ** The rating formula on integer ratings *)

Section RatingOnIntegers.
Import SolverHelper RatingSpec MoreSpec.
Local Open Scope Z_scope.

(** The refinement holds whatever the length: a roster of more than 11
    is not padded by either side. *)
Lemma getRating_aggregateRating_all (r : list Q) :
  getRating (Some r) = aggregateRating r.
Proof.
  destruct r as [|x r]; [reflexivity|].
  unfold getRating, aggregateRating.
  remember (x :: r) as rs eqn:Hrs. clear Hrs x r.
  cbv zeta. rewrite paddedRatings_of_pad11, Math_floor_div11.
  f_equal. rewrite <- Math_round_half_up. unfold Math_round. apply Qfloor_comp.
  set (p := pad11 rs).
  assert (fold_left (fun acc curr => acc + curr)%Q p 0%Q == Qsum p)%Q as Hsum.
  { rewrite reduce_sum. ring. }
  assert (fold_left (fun acc curr => acc + curr)%Q p 0%Q / 11 == Qsum p / 11)%Q
    as Havg by (by rewrite Hsum).
  rewrite (reduce_correction p _ _ 0%Q Havg), Hsum. ring.
Qed.

Lemma Qsum_inject_Z (l : list Z) : (Qsum (map inject_Z l) == inject_Z (Zsum l))%Q.
Proof.
  induction l as [|v l IH]; simpl; [reflexivity|].
  by rewrite IH, inject_Z_plus.
Qed.

Lemma pad11_inject_Z (l : list Z) :
  pad11 (map inject_Z l) = map inject_Z (l ++ repeat 0 (11 - length l)).
Proof.
  unfold pad11. rewrite map_app, length_map. f_equal.
  induction (11 - length l)%nat as [|n IH]; simpl; [done|by rewrite IH].
Qed.

Lemma Qmax_bonus (v S : Z) :
  (Qmax 0 (inject_Z v - inject_Z S / 11)
   == inject_Z (Z.max 0 (11 * v - S)) / 11)%Q.
Proof.
  assert (inject_Z v - inject_Z S / 11 == inject_Z (11 * v - S) / 11)%Q as Hd.
  { unfold Z.sub. rewrite inject_Z_plus, inject_Z_mult, inject_Z_opp. field. }
  destruct (Z.le_gt_cases (11 * v - S) 0) as [Hle|Hgt].
  - rewrite Z.max_l by done. rewrite Q.max_l; [reflexivity|].
    rewrite Hd. unfold Qle, Qdiv, Qmult, Qinv, inject_Z. simpl. lia.
  - rewrite Z.max_r by lia. rewrite Q.max_r; [exact Hd|].
    rewrite Hd. unfold Qle, Qdiv, Qmult, Qinv, inject_Z. simpl. lia.
Qed.

Lemma Qsum_bonus (S : Z) (p : list Z) :
  (Qsum (map (fun v => Qmax 0 (v - inject_Z S / 11)) (map inject_Z p))
   == inject_Z (bonus11 S p) / 11)%Q.
Proof.
  unfold bonus11. induction p as [|v p IH]; simpl.
  - reflexivity.
  - rewrite IH, Qmax_bonus, inject_Z_plus. field.
Qed.

Lemma Qsum_bonus_avg (avg avg' : Q) (p : list Q) :
  (avg == avg')%Q ->
  (Qsum (map (fun v => Qmax 0 (v - avg)) p)
   == Qsum (map (fun v => Qmax 0 (v - avg')) p))%Q.
Proof.
  intros Havg. induction p as [|v p IH]; simpl; [reflexivity|].
  rewrite IH.
  assert (Qmax 0 (v - avg) == Qmax 0 (v - avg'))%Q as ->; [|reflexivity].
  destruct (Qlt_le_dec 0 (v - avg)) as [Hlt|Hle].
  - rewrite !Q.max_r; [by rewrite Havg | |]; apply Qlt_le_weak;
      [by rewrite <- Havg | done].
  - rewrite !Q.max_l; [reflexivity | by rewrite <- Havg | done].
Qed.

Lemma Qfloor_make (n : Z) (d : positive) : Qfloor (n # d) = n / Z.pos d.
Proof. reflexivity. Qed.

Lemma rating_formula_nonempty (l : list Z) :
  l <> [] ->
  rating_formula l
  = (22 * Zsum (l ++ repeat 0 (11 - length l))
     + 2 * bonus11 (Zsum (l ++ repeat 0 (11 - length l)))
                   (l ++ repeat 0 (11 - length l)) + 11) / 22 / 11.
Proof. by destruct l. Qed.

(** [getRating] on integers is integer arithmetic. *)
Lemma getRatingZ_formula (l : list Z) : getRatingZ l = rating_formula l.
Proof.
  unfold getRatingZ. rewrite getRating_aggregateRating_all.
  destruct l as [|x l]; [reflexivity|].
  rewrite rating_formula_nonempty by done.
  unfold aggregateRating.
  remember (x :: l) as rs eqn:Hrs. clear Hrs x l.
  cbv zeta. rewrite pad11_inject_Z.
  set (p := rs ++ repeat 0 (11 - length rs)).
  f_equal. rewrite <- Math_round_half_up. unfold Math_round.
  rewrite <- (Qfloor_make (22 * Zsum p + 2 * bonus11 (Zsum p) p + 11) 22).
  apply Qfloor_comp.
  rewrite (Qsum_bonus_avg _ (inject_Z (Zsum p) / 11));
    [|by rewrite Qsum_inject_Z].
  rewrite Qsum_bonus, Qsum_inject_Z.
  rewrite (Qmake_Qdiv _ 22).
  rewrite !inject_Z_plus, !inject_Z_mult. field.
Qed.

Lemma Zsum_app (l1 l2 : list Z) : Zsum (l1 ++ l2) = Zsum l1 + Zsum l2.
Proof. induction l1 as [|v l1 IH]; simpl; lia. Qed.

Lemma Zsum_bounds (a b : Z) (p : list Z) :
  Forall (fun v => a <= v <= b) p ->
  Z.of_nat (length p) * a <= Zsum p <= Z.of_nat (length p) * b.
Proof. induction 1 as [|v p Hv _ IH]; simpl length; simpl Zsum; lia. Qed.

Lemma Zsum_perm (l l' : list Z) : l ≡ₚ l' -> Zsum l = Zsum l'.
Proof. induction 1; simpl; lia. Qed.

Lemma formula_bounds (a b : Z) (p : list Z) :
  length p = 11%nat -> Forall (fun v => a <= v <= b) p ->
  a <= (22 * Zsum p + 2 * bonus11 (Zsum p) p + 11) / 22 / 11 <= b.
Proof.
  intros Hlen Hp. pose proof (Zsum_bounds a b p Hp) as HS. rewrite Hlen in HS.
  set (S := Zsum p) in *.
  assert (0 <= bonus11 S p <= 11 * (11 * b - S)) as HC.
  { unfold bonus11.
    assert (Forall (fun w => 0 <= w <= 11 * b - S)
                   (map (fun v => Z.max 0 (11 * v - S)) p)) as Hterms.
    { apply Forall_map. eapply Forall_impl; [exact Hp|]. simpl. lia. }
    apply Zsum_bounds in Hterms. rewrite length_map, Hlen in Hterms. lia. }
  set (C := bonus11 S p) in *.
  Z.to_euclidean_division_equations. lia.
Qed.

Lemma padded_length (l : list Z) :
  (length l <= 11)%nat -> length (l ++ repeat 0 (11 - length l)) = 11%nat.
Proof. intros Hl. rewrite length_app, repeat_length. lia. Qed.

Lemma rating_formula_bounds (l : list Z) (lo hi : Z) :
  (length l <= 11)%nat ->
  Forall (fun v => lo <= v <= hi) l ->
  Z.min lo 0 <= rating_formula l <= Z.max hi 0 /\
  (length l = 11%nat -> lo <= rating_formula l <= hi).
Proof.
  intros Hlen Hl.
  destruct (decide (l = [])) as [->|Hne]; [simpl; split; [lia|done]|].
  rewrite rating_formula_nonempty by done. split.
  - apply formula_bounds; [by apply padded_length|].
    apply Forall_app. split.
    + eapply Forall_impl; [exact Hl|]. simpl. lia.
    + apply Forall_forall. intros v Hv%list_elem_of_In%repeat_spec. lia.
  - intros H11. rewrite H11. simpl repeat. rewrite app_nil_r.
    by apply formula_bounds.
Qed.



Lemma bonus11_perm (S : Z) (l l' : list Z) :
  l ≡ₚ l' -> bonus11 S l = bonus11 S l'.
Proof. intros Hp. unfold bonus11. apply Zsum_perm. by rewrite Hp. Qed.

Lemma rating_formula_perm (l l' : list Z) :
  l ≡ₚ l' -> rating_formula l = rating_formula l'.
Proof.
  intros Hp.
  destruct (decide (l = [])) as [->|Hne].
  { by apply Permutation_nil in Hp as ->. }
  assert (l' <> []) as Hne'.
  { intros ->. by apply Permutation_sym, Permutation_nil in Hp. }
  rewrite !rating_formula_nonempty by done.
  assert (l ++ repeat 0 (11 - length l) ≡ₚ l' ++ repeat 0 (11 - length l'))
    as Hpad.
  { rewrite (Permutation_length Hp). by apply Permutation_app_tail. }
  by rewrite (Zsum_perm _ _ Hpad), (bonus11_perm _ _ _ Hpad).
Qed.



(** X3: writing the empty slots as zeros changes nothing: a roster and
    the same roster followed by zeros, up to 11 in all, have the same
    rating. *)
Theorem getRating_zero_padding (l : list Z) (n : nat) :
  (length l + n <= 11)%nat ->
  getRatingZ (l ++ repeat 0 n) = getRatingZ l.
Proof.
  intros Hlen. rewrite !getRatingZ_formula.
  destruct n as [|n]; [by rewrite app_nil_r|].
  assert (l ++ repeat 0 (S n) <> []) as Hne by (by destruct l).
  rewrite rating_formula_nonempty by done.
  assert ((l ++ repeat 0 (S n)) ++ repeat 0 (11 - length (l ++ repeat 0 (S n)))
          = l ++ repeat 0 (11 - length l)) as ->.
  { rewrite <- app_assoc, <- repeat_app, length_app, repeat_length.
    do 2 f_equal. lia. }
  destruct (decide (l = [])) as [->|Hl]; [by vm_compute|].
  by rewrite rating_formula_nonempty.
Qed.

Lemma getRating_zero_padding_witness :
  (length [87; 87] + 9 <= 11)%nat /\
  getRatingZ ([87; 87] ++ repeat 0 9) = getRatingZ [87; 87].
Proof. split; [simpl; lia|]. apply getRating_zero_padding. simpl; lia. Defined.

End RatingOnIntegers.

(** ** The enumerator is complete, and its count *)

Section EnumeratorComplete.
Import SolverHelper SolverSpec MoreSpec Helpers.
Context {A : Type} `{EqDecision A}.
Implicit Types (a rest xs ys : list A) (x : A).

Lemma filter_eq_repeat x xs :
  filter (fun y => y = x) xs = repeat x (length (filter (fun y => y = x) xs)).
Proof.
  induction xs as [|y xs IH]; [done|].
  rewrite filter_cons. destruct (decide (y = x)) as [->|]; [|done].
  simpl. by rewrite <- IH.
Qed.

Lemma elem_of_multisubsetsImpl_cons x rest (i n : nat) ys :
  (i <= n)%nat -> ys ∈ multisubsetsImpl rest (n - i) ->
  repeat x i ++ ys ∈ multisubsetsImpl (x :: rest) n.
Proof.
  intros Hi Hys. rewrite multisubsetsImpl_cons.
  apply list_elem_of_In, in_flat_map. exists i. split.
  - apply in_seq. lia.
  - unfold prependNTimes. apply in_map_iff. exists ys.
    split; [done|by apply list_elem_of_In].
Qed.

Lemma multisubsetsImpl_complete a xs :
  xs ⊆ a ->
  exists ys, ys ∈ multisubsetsImpl a (length xs) /\ ys ≡ₚ xs.
Proof.
  revert xs. induction a as [|x rest IH]; intros xs Hsub.
  - destruct xs as [|y xs]; [exists []; split; [by left|done]|].
    exfalso. by apply (not_elem_of_nil y), Hsub; left.
  - set (same := filter (fun y => y = x) xs).
    set (others := filter (fun y => ~ y = x) xs).
    assert (same ++ others ≡ₚ xs) as Hsplit by apply filter_app_complement.
    assert (others ⊆ rest) as Hothers.
    { intros y [Hne Hy]%list_elem_of_filter.
      by destruct (proj1 (elem_of_cons _ _ _) (Hsub y Hy)). }
    destruct (IH others Hothers) as (ys & Hys & Hperm).
    exists (repeat x (length same) ++ ys). split.
    + assert (length xs = length same + length others)%nat as Hlen
        by (by rewrite <- Hsplit, length_app).
      apply elem_of_multisubsetsImpl_cons; [lia|].
      by replace (length xs - length same)%nat with (length others) by lia.
    + rewrite Hperm, <- Hsplit. unfold same at 2.
      by rewrite (filter_eq_repeat x xs).
Qed.

(** X4: the enumerator misses nothing: every sequence drawn from the
    alphabet is yielded, up to the order of its elements, among the
    multisets of its size (whether or not the alphabet repeats values). *)
Theorem getMultisubsets_complete a xs :
  xs ⊆ a ->
  exists ys, ys ∈ getMultisubsets a (length xs) /\ ys ≡ₚ xs.
Proof. intros Hsub. unfold getMultisubsets. by apply multisubsetsImpl_complete. Qed.

End EnumeratorComplete.

Lemma getMultisubsets_complete_witness :
  [84; 82; 84] ⊆ [82; 83; 84] /\
  exists ys, ys ∈ SolverHelper.getMultisubsets [82; 83; 84] 3 /\
             ys ≡ₚ [84; 82; 84].
Proof.
  assert ([84; 82; 84] ⊆ [82; 83; 84]) as Hsub.
  { intros y Hy. rewrite !elem_of_cons in *. tauto. }
  split; [exact Hsub|].
  exact (getMultisubsets_complete [82; 83; 84] [84; 82; 84] Hsub).
Defined.

Section Counting2.
Import SolverHelper SolverSpec MoreSpec Helpers.

(** *** [factorial] *)





(** *** [getMultisubsetsCount] *)




End Counting2.

(** ** Counting objects, unique ratings and prices *)

Section CountingObjects.
Import SolverHelper OptimalCombinations Index SolverSpec MoreSpec Helpers.

(** *** [countRatings] *)

Lemma countRatings_fold_None `{Countable K} (l : list K) (acc : gmap K Z) (k : K) :
  fold_left (fun acc rating => <[rating := default 0 (acc !! rating) + 1]> acc)
            l acc !! k = None
  <-> acc !! k = None /\ k ∉ l.
Proof.
  revert acc. induction l as [|x l IH]; intros acc; simpl.
  - split; [intros ?; split; [done|apply not_elem_of_nil] | by intros [? _]].
  - rewrite IH, not_elem_of_cons.
    destruct (decide (x = k)) as [->|Hne].
    + rewrite lookup_insert_eq. split; [by intros [? _] | by intros (_ & ? & _)].
    + rewrite lookup_insert_ne by done. split.
      * intros [? ?]. repeat split; [done|congruence|done].
      * by intros (? & _ & ?).
Qed.

Lemma Zsum_snd_insert `{Countable K} (m : gmap K Z) (k : K) (v : Z) :
  Zsum (map snd (map_to_list (<[k := v]> m)))
  = Zsum (map snd (map_to_list m)) - default 0 (m !! k) + v.
Proof.
  destruct (m !! k) as [w|] eqn:Hk; simpl.
  - rewrite <- (insert_delete_eq m k v).
    rewrite <- (insert_delete_id m k w Hk) at 2.
    rewrite !(Zsum_perm _ _ (Permutation_map snd
               (map_to_list_insert _ _ _ (lookup_delete_eq m k)))).
    simpl. lia.
  - rewrite (Zsum_perm _ _ (Permutation_map snd (map_to_list_insert _ _ _ Hk))).
    simpl. lia.
Qed.

Lemma countRatings_fold_total `{Countable K} (l : list K) (acc : gmap K Z) :
  Zsum (map snd (map_to_list
    (fold_left (fun acc rating => <[rating := default 0 (acc !! rating) + 1]> acc)
               l acc)))
  = Zsum (map snd (map_to_list acc)) + Z.of_nat (length l).
Proof.
  revert acc. induction l as [|x l IH]; intros acc; simpl fold_left.
  - simpl. lia.
  - rewrite IH, Zsum_snd_insert. simpl length. lia.
Qed.

Lemma countRatings_at `{Countable K} (l : list K) (k : K) :
  countRatings l !! k
  = if decide (k ∈ l) then Some (occurrences k l) else None.
Proof.
  pose proof (countRatings_lookup l k) as Hc.
  pose proof (countRatings_fold_None l ∅ k) as Hn. fold (countRatings l) in Hn.
  destruct (decide (k ∈ l)) as [Hin|Hout].
  - destruct (countRatings l !! k) as [c|]; [simpl in Hc; by subst|].
    by destruct (proj1 Hn eq_refl).
  - apply Hn. by split.
Qed.

(** X7: the object [countRatings] builds has a key exactly for the values
    that occur, each with its number of occurrences, and its counts add
    up to the length of the input. *)
Theorem countRatings_exact `{Countable K} (l : list K) :
  (forall k, countRatings l !! k
             = if decide (k ∈ l) then Some (occurrences k l) else None) /\
  Zsum (map snd (map_to_list (countRatings l))) = Z.of_nat (length l).
Proof.
  split; [apply countRatings_at|].
  unfold countRatings. rewrite countRatings_fold_total.
  by rewrite map_to_list_empty.
Qed.

(** *** [Object.entries] has ascending, distinct keys *)

#[local] Instance key_le_total {V} : Total (@key_le V).
Proof. intros a b. unfold key_le. lia. Qed.

#[local] Instance key_le_trans {V} : Transitive (@key_le V).
Proof. intros a b c. unfold key_le. lia. Qed.

Lemma entries_keys_NoDup {V} (o : gmap Z V) : NoDup (map fst (entries o)).
Proof.
  unfold entries. rewrite merge_sort_Permutation. apply NoDup_fst_map_to_list.
Qed.


Lemma elem_of_entries_keys {V} (o : gmap Z V) (k : Z) :
  k ∈ map fst (entries o) <-> is_Some (o !! k).
Proof.
  rewrite list_elem_of_fmap. split.
  - intros ([k' v] & -> & Hin). apply elem_of_entries in Hin. by exists v.
  - intros [v Hv]. exists (k, v). split; [done|by apply elem_of_entries].
Qed.

(** *** [getUniqueRatings] *)





(** *** Expanding a combination *)

Lemma fold_left_add_Zsum (l : list Z) (a : Z) :
  fold_left (fun a b => a + b) l a = a + Zsum l.
Proof. revert a. induction l as [|x l IH]; intros a; simpl; [lia|]. rewrite IH. lia. Qed.

Lemma sum_ratings_Zsum (l : list Z) : sum_ratings l = Zsum l.
Proof. unfold sum_ratings. by rewrite fold_left_add_Zsum. Qed.

Lemma fold_left_points (es : list (Z * Z)) (a : Z) :
  fold_left (fun total '(rating, count) => total + rating * count) es a
  = a + Zsum (map (fun e => e.1 * e.2) es).
Proof.
  revert a. induction es as [|[r n] es IH]; intros a; simpl; [lia|].
  rewrite IH. lia.
Qed.

Lemma expand_sizes (es : list (Z * Z)) :
  Forall (fun e => 0 <= e.2) es ->
  Z.of_nat (length (flat_map (fun '(rating, count) => repeat rating (Z.to_nat count)) es))
  = Zsum (map snd es) /\
  Zsum (flat_map (fun '(rating, count) => repeat rating (Z.to_nat count)) es)
  = Zsum (map (fun e => e.1 * e.2) es).
Proof.
  induction 1 as [|[r n] es Hn _ [IHlen IHsum]]; [done|].
  simpl in Hn. simpl flat_map. rewrite length_app, repeat_length, Zsum_app.
  simpl map. simpl Zsum. rewrite <- IHlen, <- IHsum.
  split; [lia|]. f_equal.
  rewrite <- (Z2Nat.id n) at 2 by done.
  induction (Z.to_nat n) as [|k IHk]; simpl repeat; simpl Zsum; lia.
Qed.

Lemma combination_Forall (P : Z -> Z -> Prop) (l : list (Z * Z)) :
  Forall (fun e => P e.1 e.2) l -> map_Forall P (combination l).
Proof.
  intros Hl k n Hk. unfold combination in Hk.
  apply elem_of_list_to_map_2 in Hk. rewrite Forall_forall in Hl.
  by apply (Hl (k, n)).
Qed.

Lemma combinationToArray_entries (c : gmap Z Z) :
  Forall (fun e => 0 <= e.2) (entries c) ->
  Z.of_nat (length (combinationToArray c)) = TableSpec.combination_size c /\
  sum_ratings (combinationToArray c) = calculateCombinationPoints c.
Proof.
  intros Hes. destruct (expand_sizes (entries c) Hes) as [Hlen Hsum].
  unfold combinationToArray, TableSpec.combination_size, calculateCombinationPoints.
  rewrite sum_ratings_Zsum, fold_left_points, fold_left_add_Zsum.
  split; [by rewrite Hlen | by rewrite Hsum].
Qed.

(** X9: a combination with no negative count expands into as many
    ratings as its counts add up to, and these ratings add up to
    [calculateCombinationPoints]. *)
Theorem combinationToArray_sizes (c : gmap Z Z) :
  map_Forall (fun _ count => 0 <= count) c ->
  Z.of_nat (length (combinationToArray c)) = TableSpec.combination_size c /\
  sum_ratings (combinationToArray c) = calculateCombinationPoints c.
Proof.
  intros Hc.
  assert (Forall (fun e => 0 <= e.2) (entries c)) as Hes.
  { apply Forall_forall. intros [r n] Hin%elem_of_entries.
    by apply (Hc r n). }
  by apply combinationToArray_entries.
Qed.

Lemma occurrences_expand_absent (es : list (Z * Z)) (k : Z) :
  k ∉ map fst es ->
  occurrences k (flat_map (fun '(rating, count) => repeat rating (Z.to_nat count)) es)
  = 0.
Proof.
  intros Hk. apply occurrences_absent. intros Hin. apply Hk.
  apply list_elem_of_In, in_flat_map in Hin as ([r n] & Hrn & Hin).
  apply repeat_spec in Hin as ->.
  apply list_elem_of_fmap. exists (r, n). split; [done|by apply list_elem_of_In].
Qed.

Lemma occurrences_expand (es : list (Z * Z)) (k n : Z) :
  NoDup (map fst es) -> (k, n) ∈ es ->
  occurrences k (flat_map (fun '(rating, count) => repeat rating (Z.to_nat count)) es)
  = Z.max 0 n.
Proof.
  induction es as [|[r m] es IH]; intros Hnd Hin; [by apply elem_of_nil in Hin|].
  simpl in Hnd. apply NoDup_cons in Hnd as [Hr Hnd].
  simpl flat_map. rewrite occurrences_app.
  apply elem_of_cons in Hin as [[= <- <-]|Hin].
  - rewrite occurrences_repeat, occurrences_expand_absent by done. lia.
  - rewrite IH by done.
    rewrite occurrences_absent; [lia|].
    intros Hk%list_elem_of_In%repeat_spec. subst r. apply Hr.
    apply list_elem_of_fmap. by exists (k, n).
Qed.

Lemma occurrences_combinationToArray (c : gmap Z Z) (k : Z) :
  occurrences k (combinationToArray c) = Z.max 0 (default 0 (c !! k)).
Proof.
  unfold combinationToArray. destruct (c !! k) as [n|] eqn:Hk; simpl.
  - apply occurrences_expand; [apply entries_keys_NoDup|by apply elem_of_entries].
  - apply occurrences_expand_absent. rewrite elem_of_entries_keys, Hk.
    by intros [? ?].
Qed.



Lemma combinationToArray_sizes_witness :
  map_Forall (fun _ count => 0 <= count) (combination [(84, 1); (83, 6); (82, 4)]) /\
  Z.of_nat (length (combinationToArray (combination [(84, 1); (83, 6); (82, 4)])))
  = 11 /\
  sum_ratings (combinationToArray (combination [(84, 1); (83, 6); (82, 4)])) = 910.
Proof.
  assert (map_Forall (fun _ count => 0 <= count)
            (combination [(84, 1); (83, 6); (82, 4)])) as Hc.
  { apply combination_Forall. repeat constructor; simpl; lia. }
  split; [exact Hc|].
  destruct (combinationToArray_sizes _ Hc) as [-> ->]. by vm_compute.
Defined.

Lemma isCombinationPossible_occurrences (c : gmap Z Z)
    (inventory : list scalar) (k : Z) :
  isCombinationPossible c (countRatings inventory) = true ->
  occurrences k (combinationToArray c) <= occurrences (Num k) inventory.
Proof.
  unfold isCombinationPossible. rewrite forallb_forall.
  intros Hall. rewrite occurrences_combinationToArray.
  pose proof (occurrences_nonneg (Num k) inventory).
  destruct (c !! k) as [n|] eqn:Hk; simpl; [|lia].
  specialize (Hall (k, n)
                (proj1 (list_elem_of_In _ _) (proj2 (elem_of_entries c k n) Hk))).
  simpl in Hall. rewrite countRatings_lookup in Hall.
  apply negb_true_iff, Z.ltb_ge in Hall. lia.
Qed.

(** X11: [isCombinationPossible] against the counts of an inventory holds
    exactly when the ratings the combination expands into form a
    sub-multiset of the inventory. *)
Theorem isCombinationPossible_submultiset (c : gmap Z Z) (inventory : list scalar) :
  isCombinationPossible c (countRatings inventory) = true <->
  forall k, occurrences k (combinationToArray c)
            <= occurrences (Num k) inventory.
Proof.
  split; [intros Hposs k; by apply isCombinationPossible_occurrences|].
  unfold isCombinationPossible. rewrite forallb_forall.
  intros Hsub [k n] Hin%list_elem_of_In%elem_of_entries.
  rewrite countRatings_lookup. apply negb_true_iff, Z.ltb_ge.
  specialize (Hsub k). rewrite occurrences_combinationToArray, Hin in Hsub.
  simpl in Hsub. lia.
Qed.

(** *** [getPrice] *)

Lemma getPrice_thrown (p : prices) (l : list Z) (msg : string) :
  fold_left (fun acc curr => let* a := acc in
                             let* p := price_of p curr in
                             Return (a + p)) l (Throw msg)
  = Throw msg.
Proof. induction l as [|x l IH]; simpl; [done|exact IH]. Qed.

(** X12: with a price object [getPrice] never throws and returns the sum
    of the prices of the ratings, a rating without a price counting 0;
    with a [null] price object it returns 0 on no ratings and throws on
    the first rating otherwise. *)
Theorem getPrice_spec :
  (forall (m : gmap Z Z) (l : list Z),
     getPrice l (PricesObj m)
     = Return (Zsum (map (fun r => default 0 (m !! r)) l))) /\
  getPrice [] PricesNull = Return 0 /\
  (forall (r : Z) (l : list Z),
     getPrice (r :: l) PricesNull
     = Throw ("Cannot read properties of null (reading '" +:+ pretty r +:+ "')")).
Proof.
  split; [|split; [done|]].
  - intros m l. rewrite getPrice_obj. f_equal.
    assert (forall a, fold_left (fun a curr => a + default 0 (m !! curr)) l a
                      = a + Zsum (map (fun r => default 0 (m !! r)) l)) as Hf.
    { induction l as [|x l IH]; intros a; simpl; [lia|]. rewrite IH. lia. }
    rewrite Hf. lia.
  - intros r l. exact (getPrice_thrown PricesNull l _).
Qed.

End CountingObjects.

(** ** The fast path: what [findOptimalSolutions] returns *)

Section FastPathResult.
Import SolverHelper OptimalCombinations Index SolverSpec MoreSpec TableSpec.

Lemma getOptimalCombinations_outside (t : Z) :
  t < 80 \/ 92 < t -> getOptimalCombinations t = [].
Proof.
  intros Ht. unfold getOptimalCombinations.
  destruct (Z.ltb_spec t 80), (Z.gtb_spec t 92); simpl; try done; lia.
Qed.

(** Every stored combination has positive counts that add up to 11. *)
Lemma table_entries_wellformed (t : Z) (c : gmap Z Z) :
  c ∈ getOptimalCombinations t ->
  Forall (fun e => 0 < e.2) (entries c) /\ combination_size c = 11.
Proof.
  destruct (decide (80 <= t <= 92)) as [Ht|Ht].
  - apply supported_targets in Ht.
    revert c. apply Forall_forall.
    repeat (apply elem_of_cons in Ht as [-> | Ht]).
    all: try (by apply elem_of_nil in Ht).
    all: vm_compute; repeat constructor.
  - rewrite getOptimalCombinations_outside by lia. by intros ?%elem_of_nil.
Qed.

Lemma table_nonempty (t : Z) :
  80 <= t <= 92 -> length (getOptimalCombinations t) = 6%nat.
Proof.
  intros Ht%supported_targets.
  repeat (apply elem_of_cons in Ht as [-> | Ht]); try done.
  by apply elem_of_nil in Ht.
Qed.



(** *** The solutions of the fast path *)

(** *** The solutions of the fast path *)

Lemma slice0_length {X} (l : list X) (e : Z) :
  (length (slice0 l e) <= length l)%nat /\
  (0 <= e -> Z.of_nat (length (slice0 l e)) <= e).
Proof.
  unfold slice0. rewrite length_take.
  destruct (Z.ltb_spec e 0); split; lia.
Qed.

Lemma for_of_optimal_length (t : Z) (ac : gmap scalar Z) (p : prices)
    (l : list (gmap Z Z)) (acc sols : list solution) :
  for_of (optimal_step t ac p) l acc = Return sols ->
  (length sols <= length acc + length l)%nat.
Proof.
  revert acc. induction l as [|c l IH]; intros acc; cbn [for_of].
  - intros [= <-]. simpl. lia.
  - unfold optimal_step at 1.
    destruct (isCombinationPossible c ac).
    + destruct (getPrice (combinationToArray c) p) as [pr|m]; cbn [bind]; [|done].
      intros Hrun%IH. rewrite length_app in Hrun. simpl in *. lia.
    + cbn [bind]. intros Hrun%IH. simpl. lia.
Qed.

Lemma sort_by_total_points (l : list solution) :
  StronglySorted by_total_points
    (JS.sort (fun a b => totalRatingPoints a - totalRatingPoints b) l).
Proof.
  apply Sorted_StronglySorted; [intros a b c; unfold by_total_points; lia|].
  apply Sorted_impl
    with (JS.cmp_le (fun a b => totalRatingPoints a - totalRatingPoints b)).
  - unfold JS.cmp_le, by_total_points. intros a b. lia.
  - apply sort_sorted. unfold JS.cmp_le. intros a b. lia.
Qed.

(** X14: the solutions [findOptimalSolutions] returns are in ascending
    order of [totalRatingPoints]; [solutionsFound] is their number, which
    is at most 6 and at most a non-negative [maxSolutions]. *)
Theorem findOptimalSolutions_sorted_count (options : OptimalOptions.t)
    (r : result) :
  findOptimalSolutions options = Return r ->
  StronglySorted by_total_points (solutions r) /\
  solutionsFound r = Z.of_nat (length (solutions r)) /\
  (length (solutions r) <= 6)%nat /\
  (forall m, OptimalOptions.maxSolutions options = Some m -> 0 <= m ->
             Z.of_nat (length (solutions r)) <= m).
Proof.
  unfold findOptimalSolutions.
  destruct (length _ =? 0)%nat eqn:Hempty.
  { intros [= <-]. simpl. repeat split; [constructor|lia|lia]. }
  destruct (for_of _ _ _) as [sols|msg] eqn:Hrun; cbn [bind]; [|done].
  intros [= <-]. cbn [solutions solutionsFound].
  apply for_of_optimal_length in Hrun.
  change (length (@nil solution)) with 0%nat in Hrun.
  rewrite sort_length.
  match type of Hrun with
  | (_ <= _ + length (slice0 ?l ?e))%nat =>
      destruct (slice0_length l e) as [Hall Hmax];
      assert (length l <= 6)%nat as Hl
  end.
  { destruct (decide (80 <= OptimalOptions.targetRating options <= 92)).
    - by rewrite table_nonempty.
    - rewrite getOptimalCombinations_outside by lia. simpl. lia. }
  split; [apply sort_by_total_points|]. split; [done|]. split; [lia|].
  intros m Hm Hpos. rewrite Hm in Hmax, Hrun.
  change (default 10 (Some m)) with m in *. lia.
Qed.

Lemma findOptimalSolutions_sorted_count_witness :
  exists r,
    findOptimalSolutions (TestData.optimal83 (Some 2)) = Return r /\
    map totalRatingPoints (solutions r) = [910; 911] /\
    StronglySorted by_total_points (solutions r) /\
    solutionsFound r = 2.
Proof.
  eexists. split; [by vm_compute|]. split; [reflexivity|].
  match goal with |- context [solutions ?r] =>
    destruct (findOptimalSolutions_sorted_count (TestData.optimal83 (Some 2)) r)
      as (Hs & Hn & _); [by vm_compute|] end.
  split; [exact Hs|exact Hn].
Defined.

Lemma optimal_step_from_table (t : Z) (ac : gmap scalar Z) (p : prices)
    (sols sols' : list solution) (c : gmap Z Z) :
  c ∈ getOptimalCombinations t ->
  Forall (from_table t ac p) sols ->
  optimal_step t ac p sols c = Return sols' ->
  Forall (from_table t ac p) sols'.
Proof.
  intros Hc Hsols. unfold optimal_step.
  destruct (isCombinationPossible c ac) eqn:Hposs; [|by intros [= <-]].
  destruct (getPrice (combinationToArray c) p) as [pr|m] eqn:Hprice; simpl; [|done].
  intros [= <-]. apply Forall_app. split; [done|].
  constructor; [|constructor]. exists c. by repeat split.
Qed.

Lemma expand_squad_entries (c : gmap Z Z) :
  expand_squad (map (fun '(rating, count) =>
                       {| rating := rating; count := count |}) (entries c))
  = combinationToArray c.
Proof.
  unfold expand_squad, combinationToArray.
  induction (entries c) as [|[r n] es IH]; [done|]. simpl. by rewrite IH.
Qed.

(** X15: every solution [findOptimalSolutions] returns is marked optimal,
    has a squad of exactly 11 members that the inventory can supply, a
    [totalRatingPoints] equal to the sum of these members, the price of
    these members and [efficiency = totalRatingPoints / targetRating]. *)
Theorem findOptimalSolutions_solution (options : OptimalOptions.t)
    (r : result) (s : solution) :
  findOptimalSolutions options = Return r ->
  s ∈ solutions r ->
  let members := expand_squad (squad s) in
  isOptimal s = Some true /\
  length members = 11%nat /\
  (forall k, occurrences k members
             <= occurrences (Num k)
                  (default [] (OptimalOptions.availableRatings options))) /\
  sum_ratings members = totalRatingPoints s /\
  getPrice members (default (PricesObj ∅) (OptimalOptions.priceByRating options))
  = Return (price s) /\
  efficiency s = (inject_Z (totalRatingPoints s)
                  / inject_Z (OptimalOptions.targetRating options))%Q.
Proof.
  unfold findOptimalSolutions.
  destruct (length _ =? 0)%nat; [by intros [= <-] ?%elem_of_nil|].
  destruct (for_of _ _ _) as [sols|msg] eqn:Hrun; cbn [bind]; [|done].
  intros [= <-]. cbn [solutions]. rewrite sort_elem_of. intros Hs.
  eapply for_of_invariant in Hrun; [| |apply Forall_nil_2].
  2:{ intros s1 c s2 Hc%elem_of_slice0. by apply optimal_step_from_table. }
  rewrite Forall_forall in Hrun.
  destruct (Hrun s Hs)
    as (c & Hc & Hposs & Hsquad & Hpts & Hprice & _ & Heff & Hopt & _).
  destruct (table_entries_wellformed _ c Hc) as [Hcounts Hsize].
  destruct (combinationToArray_entries c) as [Hlen Hsum].
  { eapply Forall_impl; [exact Hcounts|]. simpl. lia. }
  cbv zeta. rewrite Hsquad, expand_squad_entries.
  split; [done|]. split; [lia|].
  split; [intros k; by apply isCombinationPossible_occurrences|].
  split; [by rewrite Hsum|]. by split.
Qed.

Lemma findOptimalSolutions_solution_witness :
  exists r s,
    findOptimalSolutions (TestData.optimal83 (Some 1)) = Return r /\
    s ∈ solutions r /\
    expand_squad (squad s) = repeat 82 2 ++ repeat 83 9 /\
    sum_ratings (expand_squad (squad s)) = totalRatingPoints s /\
    price s = 10600.
Proof.
  eexists _, _. split; [by vm_compute|]. split; [by left|].
  split; [reflexivity|]. split; [|reflexivity].
  eapply (findOptimalSolutions_solution (TestData.optimal83 (Some 1)));
    [by vm_compute | by left].
Defined.

End FastPathResult.

(** ** The exhaustive search: what its solutions are, and when there are some *)

Section ExhaustiveResult.
Import SolverHelper OptimalCombinations Index SolverSpec MoreSpec.

(** *** Expanding the counts of a list gives the list back *)

Lemma perm_of_occurrences (l1 l2 : list Z) :
  (forall k, occurrences k l1 = occurrences k l2) -> l1 ≡ₚ l2.
Proof.
  revert l2. induction l1 as [|x l1 IH]; intros l2 Hocc.
  - destruct l2 as [|y l2]; [done|].
    specialize (Hocc y). rewrite occurrences_cons, decide_True in Hocc by done.
    pose proof (occurrences_nonneg y l2). unfold occurrences in Hocc at 1.
    simpl in Hocc. lia.
  - assert (x ∈ l2) as Hx.
    { apply occurrences_pos. rewrite <- Hocc, occurrences_cons, decide_True by done.
      pose proof (occurrences_nonneg x l1). lia. }
    apply elem_of_Permutation in Hx as [l2' Hl2].
    rewrite Hl2. constructor. apply IH. intros k.
    specialize (Hocc k). rewrite (occurrences_perm k _ _ Hl2) in Hocc.
    rewrite !occurrences_cons in Hocc. lia.
Qed.

Lemma combinationToArray_countRatings (l : list Z) :
  combinationToArray (countRatings l) ≡ₚ l.
Proof.
  apply perm_of_occurrences. intros k.
  rewrite occurrences_combinationToArray, countRatings_lookup.
  pose proof (occurrences_nonneg k l). lia.
Qed.


(** *** One turn of the loop *)

Lemma hasEnoughCards_of_occurrences (av comb : list Z) :
  (forall k, occurrences k comb <= occurrences k av) ->
  hasEnoughCards (countRatings av) (countRatings comb) = true.
Proof.
  intros Hsub. unfold hasEnoughCards. apply forallb_forall.
  intros [k n] Hin%list_elem_of_In%elem_of_entries.
  rewrite countRatings_lookup. apply negb_true_iff, Z.ltb_ge.
  pose proof (countRatings_lookup comb k) as Hc. rewrite Hin in Hc.
  simpl in Hc. specialize (Hsub k). lia.
Qed.

Lemma squad_step_built (t : Z) (ex av : list Z) (p : prices)
    (sols sols' : list solution) (comb : list Z) (Q : list Z -> Prop) :
  Q comb ->
  Forall (fun s => exists c, Q c /\ built_from t ex p c s) sols ->
  squad_step t ex (countRatings av) p sols comb = Return sols' ->
  Forall (fun s => exists c, Q c /\ built_from t ex p c s) sols'.
Proof.
  intros HQ Hsols. unfold squad_step.
  destruct (hasEnoughCards _ _); simpl; [|by intros [= <-]].
  destruct (Z.ltb_spec (getRatingZ (ex ++ comb)) t) as [|Hge]; [by intros [= <-]|].
  destruct (getPrice comb p) as [pr|m] eqn:Hprice; simpl; [|done].
  intros [= <-]. apply Forall_app. split; [done|].
  constructor; [|constructor]. exists comb. split; [done|].
  unfold built_from. simpl. repeat split; try done.
  rewrite expand_squad_entries. apply combinationToArray_countRatings.
Qed.

(** The loop part of the [try] block, for a roster with empty slots. *)
Lemma calculateSquadSolutions_try_loop (t : Z) (ex av : list Z) (p : prices)
    (size maxS : Z) (sortByPrice : bool) (r : result) :
  0 < size - Z.of_nat (length ex) ->
  calculateSquadSolutions_try t ex av p size maxS sortByPrice = Return r ->
  solutions r = [] \/
  exists sols,
    for_of (squad_step t ex (countRatings av) p)
           (getMultisubsets av (Z.to_nat (size - Z.of_nat (length ex)))) []
    = Return sols /\
    solutions r =
      (let sorted := if sortByPrice then JS.sort by_price sols
                     else JS.sort by_points sols in
       if negb (maxS =? 0) && (maxS >? 0) then slice0 sorted maxS else sorted).
Proof.
  intros Hslots. unfold calculateSquadSolutions_try.
  destruct ((t >? 99) || (t <? 45)); [intros [= <-]; by left|].
  destruct (Z.leb_spec (size - Z.of_nat (length ex)) 0) as [|_]; [lia|].
  destruct (for_of _ _ _) as [sols|m] eqn:Hrun; simpl; [|done].
  intros [= <-]. right. exists sols. by split.
Qed.

Lemma elem_of_final (sols : list solution) (maxS : Z) (sortByPrice : bool)
    (s : solution) :
  s ∈ (let sorted := if sortByPrice then JS.sort by_price sols
                     else JS.sort by_points sols in
       if negb (maxS =? 0) && (maxS >? 0) then slice0 sorted maxS else sorted) ->
  s ∈ sols.
Proof.
  cbv zeta. intros Hs.
  assert (s ∈ (if sortByPrice then JS.sort by_price sols
               else JS.sort by_points sols)) as Hsorted.
  { destruct (negb (maxS =? 0) && (maxS >? 0)); [by apply elem_of_slice0 in Hs|done]. }
  destruct sortByPrice; by apply sort_elem_of in Hsorted.
Qed.

Lemma calculateSquadSolutions_built (t : Z) (ex av : list Z) (p : prices)
    (size maxS : Z) (sortByPrice : bool) (r : result) (s : solution) :
  0 < size - Z.of_nat (length ex) ->
  calculateSquadSolutions t ex av p size maxS sortByPrice = Return r ->
  s ∈ solutions r ->
  exists comb,
    (Z.of_nat (length comb) = size - Z.of_nat (length ex) /\ comb ⊆ av) /\
    built_from t ex p comb s.
Proof.
  intros Hslots. unfold calculateSquadSolutions.
  destruct (calculateSquadSolutions_try _ _ _ _ _ _ _) as [r'|m] eqn:Htry.
  2:{ intros [= <-]. simpl. by intros ?%elem_of_nil. }
  intros [= ->] Hs.
  apply (calculateSquadSolutions_try_loop _ _ _ _ _ _ _ _ Hslots) in Htry
    as [Hnil|(sols & Hrun & Hr)].
  { rewrite Hnil in Hs. by apply elem_of_nil in Hs. }
  rewrite Hr in Hs. apply elem_of_final in Hs.
  eapply (for_of_invariant _
            (Forall (fun s => exists c,
               (Z.of_nat (length c) = size - Z.of_nat (length ex) /\ c ⊆ av) /\
               built_from t ex p c s))) in Hrun; [| |constructor].
  - rewrite Forall_forall in Hrun. by apply Hrun.
  - intros s1 c s2 Hc. apply squad_step_built. unfold getMultisubsets in Hc.
    split; [|by apply (multisubsetsImpl_subseteq _ _ _ Hc)].
    pose proof (multisubsetsImpl_length av (Z.to_nat (size - Z.of_nat (length ex))))
      as Hlen.
    rewrite Forall_forall in Hlen. rewrite (Hlen c Hc). lia.
Qed.

(** X17: every solution the exhaustive search returns for a roster with
    empty slots is built from a fill of exactly that many ratings taken
    from [ratingsToTry]: its [actualRating] is the rating of the existing
    roster plus the fill and reaches the target, [totalRatingPoints] is
    their sum, [price] is the price of the fill, the squad groups expand
    to the fill and [efficiency] is [totalRatingPoints / max(actualRating, 1)]. *)
Theorem calculateSquadSolutions_solution (t : Z) (ex av : list Z) (p : prices)
    (size maxS : Z) (sortByPrice : bool) (r : result) (s : solution) :
  0 < size - Z.of_nat (length ex) ->
  calculateSquadSolutions t ex av p size maxS sortByPrice = Return r ->
  s ∈ solutions r ->
  exists comb,
    Z.of_nat (length comb) = size - Z.of_nat (length ex) /\
    comb ⊆ av /\
    built_from t ex p comb s.
Proof.
  intros Hslots Hr Hs.
  destruct (calculateSquadSolutions_built _ _ _ _ _ _ _ _ _ Hslots Hr Hs)
    as (comb & [Hlen Hsub] & Hbuilt).
  by exists comb.
Qed.

Lemma calculateSquadSolutions_solution_witness :
  exists r s comb,
    0 < 11 - Z.of_nat (length (repeat 85 9)) /\
    calculateSquadSolutions 85 (repeat 85 9) [86; 85; 84]
      (PricesObj (list_to_map [(84, 1000); (85, 1200); (86, 1500)])) 11 1 true
    = Return r /\
    s ∈ solutions r /\
    comb = [85; 84] /\ price s = 2200 /\ actualRating s = 85 /\
    built_from 85 (repeat 85 9)
      (PricesObj (list_to_map [(84, 1000); (85, 1200); (86, 1500)])) comb s.
Proof.
  eexists _, _, _. split; [simpl; lia|]. split; [by vm_compute|].
  split; [by left|]. do 3 (split; [reflexivity|]).
  destruct (calculateSquadSolutions_solution 85 (repeat 85 9) [86; 85; 84]
              (PricesObj (list_to_map [(84, 1000); (85, 1200); (86, 1500)]))
              11 1 true _ _ ltac:(simpl; lia) ltac:(by vm_compute)
              ltac:(by left))
    as (comb & _ & _ & Hb).
  pose proof Hb as (Hcomb & _). simpl in Hcomb. injection Hcomb as <-.
  exact Hb.
Defined.

(** *** The search finds a solution when there is one *)

Lemma squad_step_obj (t : Z) (ex av : list Z) (m : gmap Z Z)
    (sols : list solution) (comb : list Z) :
  exists s,
    squad_step t ex (countRatings av) (PricesObj m) sols comb
    = Return (if hasEnoughCards (countRatings av) (countRatings comb)
                 && negb (getRatingZ (ex ++ comb) <? t)
              then sols ++ [s] else sols).
Proof.
  unfold squad_step. rewrite getPrice_obj. cbn [bind]. eexists.
  destruct (hasEnoughCards _ _), (getRatingZ (ex ++ comb) <? t);
    cbn [negb andb].
  2: reflexivity.
  all: reflexivity.
Qed.

Lemma for_of_squad_obj (t : Z) (ex av : list Z) (m : gmap Z Z)
    (l : list (list Z)) (acc : list solution) :
  exists sols,
    for_of (squad_step t ex (countRatings av) (PricesObj m)) l acc = Return sols /\
    (length acc <= length sols)%nat /\
    (forall comb, comb ∈ l ->
       hasEnoughCards (countRatings av) (countRatings comb) = true ->
       t <= getRatingZ (ex ++ comb) ->
       (length acc < length sols)%nat).
Proof.
  revert acc. induction l as [|c l IH]; intros acc; cbn [for_of].
  - exists acc. split; [done|]. split; [lia|]. by intros comb ?%elem_of_nil.
  - destruct (squad_step_obj t ex av m acc c) as [s ->]. cbn [bind].
    destruct (hasEnoughCards (countRatings av) (countRatings c)
              && negb (getRatingZ (ex ++ c) <? t)) eqn:Hpass.
    + destruct (IH (acc ++ [s])) as (sols & Hrun & Hlen & _).
      rewrite length_app in Hlen. simpl in Hlen.
      exists sols. split; [done|]. split; [lia|]. intros; lia.
    + destruct (IH acc) as (sols & Hrun & Hlen & Hnew).
      exists sols. split; [done|]. split; [done|].
      intros comb [->|Hin]%elem_of_cons Hen Hrating; [|by eapply Hnew].
      rewrite Hen in Hpass. simpl in Hpass.
      apply negb_false_iff, Z.ltb_lt in Hpass. lia.
Qed.

Lemma length_final (sols : list solution) (maxS : Z) (sortByPrice : bool) :
  sols <> [] ->
  (let sorted := if sortByPrice then JS.sort by_price sols
                 else JS.sort by_points sols in
   if negb (maxS =? 0) && (maxS >? 0) then slice0 sorted maxS else sorted) <> [].
Proof.
  intros Hne. cbv zeta.
  assert (0 < length (if sortByPrice then JS.sort by_price sols
                      else JS.sort by_points sols))%nat as Hlen.
  { destruct sortByPrice; rewrite sort_length; destruct sols; simpl; try done; lia. }
  destruct (Z.eqb_spec maxS 0) as [|Hz]; simpl.
  { intros Heq. rewrite Heq in Hlen. simpl in Hlen. lia. }
  destruct (Z.gtb_spec maxS 0) as [Hpos|].
  - unfold slice0. destruct (Z.ltb_spec maxS 0); [lia|].
    intros Heq. apply (f_equal length) in Heq. rewrite length_take in Heq.
    simpl in Heq. lia.
  - intros Heq. rewrite Heq in Hlen. simpl in Hlen. lia.
Qed.

(** X18: the exhaustive search is complete: for a target in 45..99, a
    roster with empty slots and a price object, whenever some fill of the
    right size can be drawn from [ratingsToTry] (no rating more often
    than it is there) and brings the roster to the target,
    [calculateSquadSolutions] returns at least one solution and no
    error. *)
Theorem calculateSquadSolutions_complete (t : Z) (ex av comb : list Z)
    (m : gmap Z Z) (size maxS : Z) (sortByPrice : bool) :
  45 <= t <= 99 ->
  0 < size - Z.of_nat (length ex) ->
  Z.of_nat (length comb) = size - Z.of_nat (length ex) ->
  (forall k, occurrences k comb <= occurrences k av) ->
  t <= getRatingZ (ex ++ comb) ->
  exists r,
    calculateSquadSolutions t ex av (PricesObj m) size maxS sortByPrice
    = Return r /\
    error r = None /\ solutions r <> [] /\ 0 < solutionsFound r.
Proof.
  intros Ht Hslots Hlen Hsub Hrating.
  assert (comb ⊆ av) as Hin.
  { intros x Hx%occurrences_pos. apply occurrences_pos. specialize (Hsub x). lia. }
  destruct (multisubsetsImpl_complete av comb Hin) as (ys & Hys & Hperm).
  unfold calculateSquadSolutions, calculateSquadSolutions_try.
  destruct (Z.gtb_spec t 99) as [|_]; [lia|].
  destruct (Z.ltb_spec t 45) as [|_]; [lia|]. cbn [orb].
  destruct (Z.leb_spec (size - Z.of_nat (length ex)) 0) as [|_]; [lia|].
  match goal with |- context [for_of ?st ?l ?a] =>
    destruct (for_of_squad_obj t ex av m l a) as (sols & Hrun & _ & Hnew) end.
  rewrite Hrun. cbn [bind].
  assert (sols <> []) as Hne.
  { assert (length (@nil solution) < length sols)%nat as Hpos.
    - apply (Hnew ys).
      + unfold getMultisubsets. by replace (Z.to_nat _) with (length comb) by lia.
      + apply hasEnoughCards_of_occurrences. intros k.
        rewrite (occurrences_perm k _ _ Hperm). apply Hsub.
      + rewrite !getRatingZ_formula in *.
        by rewrite (rating_formula_perm (ex ++ ys) (ex ++ comb))
          by (by apply Permutation_app_head).
    - destruct sols; simpl in *; [lia|done]. }
  pose proof (length_final sols maxS sortByPrice Hne) as Hfinal.
  cbv zeta in Hfinal.
  eexists. split; [reflexivity|]. cbn [error solutions solutionsFound].
  split; [done|]. split; [exact Hfinal|].
  match goal with |- 0 < Z.of_nat (length ?l) =>
    destruct l; [done|simpl; lia] end.
Qed.

Lemma calculateSquadSolutions_complete_witness :
  45 <= 84 <= 99 /\
  (forall k, occurrences k [84; 85] <= occurrences k [82; 83; 84; 85]) /\
  84 <= getRatingZ (repeat 85 9 ++ [84; 85]) /\
  exists r,
    calculateSquadSolutions 84 (repeat 85 9) [82; 83; 84; 85] (PricesObj ∅) 11 0 true
    = Return r /\
    error r = None /\ solutions r <> [] /\ 0 < solutionsFound r.
Proof.
  assert (forall k, occurrences k [84; 85] <= occurrences k [82; 83; 84; 85]) as Hsub.
  { intros k. rewrite !occurrences_cons.
    destruct (decide (82 = k)), (decide (83 = k)), (decide (84 = k)),
      (decide (85 = k)); unfold occurrences; simpl; lia. }
  split; [lia|]. split; [exact Hsub|]. split; [by vm_compute|].
  apply (calculateSquadSolutions_complete 84 (repeat 85 9) [82; 83; 84; 85]
           [84; 85] ∅ 11 0 true); [lia | simpl; lia | simpl; lia | exact Hsub |].
  by vm_compute.
Defined.

(** *** A target no rating reaches *)

Lemma list_lower_bound (l : list Z) : exists lo, Forall (fun v => lo <= v) l.
Proof.
  induction l as [|v l [lo IH]]; [by exists 0|].
  exists (Z.min v lo). constructor; [lia|].
  eapply Forall_impl; [exact IH|]. simpl. lia.
Qed.

Lemma getRatingZ_below (l : list Z) (t : Z) :
  0 < t -> (length l <= 11)%nat -> Forall (fun v => v < t) l ->
  getRatingZ l < t.
Proof.
  intros Ht Hlen Hl. rewrite getRatingZ_formula.
  destruct (list_lower_bound l) as [lo Hlo].
  assert (Forall (fun v => lo <= v <= t - 1) l) as Hboth.
  { rewrite Forall_forall in *. intros v Hv.
    pose proof (Hl v Hv). pose proof (Hlo v Hv). lia. }
  destruct (rating_formula_bounds l lo (t - 1) Hlen Hboth) as [Hb _]. lia.
Qed.

(** X19: when every rating of the roster and of [ratingsToTry] is below a
    positive target and the squad has at most 11 places, the exhaustive
    search returns no solution. *)
Theorem calculateSquadSolutions_unreachable (t : Z) (ex av : list Z)
    (p : prices) (size maxS : Z) (sortByPrice : bool) (r : result) :
  0 < t ->
  Z.of_nat (length ex) <= size <= 11 ->
  Forall (fun v => v < t) ex ->
  Forall (fun v => v < t) av ->
  calculateSquadSolutions t ex av p size maxS sortByPrice = Return r ->
  solutions r = [] /\ solutionsFound r = 0.
Proof.
  intros Ht Hsize Hex Hav. unfold calculateSquadSolutions.
  destruct (calculateSquadSolutions_try _ _ _ _ _ _ _) as [r'|m] eqn:Htry.
  2:{ by intros [= <-]. }
  intros [= ->]. revert Htry. unfold calculateSquadSolutions_try.
  destruct ((t >? 99) || (t <? 45)); [by intros [= <-]|].
  destruct (Z.leb_spec (size - Z.of_nat (length ex)) 0) as [Hfull|Hslots].
  { pose proof (getRatingZ_below ex t Ht ltac:(lia) Hex) as Hlow.
    destruct (Z.geb_spec (getRatingZ ex) t) as [|_]; [lia|]. by intros [= <-]. }
  destruct (for_of _ _ _) as [sols|m] eqn:Hrun; cbn [bind]; [|done].
  assert (sols = []) as ->.
  { eapply (for_of_invariant _ (fun s => s = [])) in Hrun; [done| |done].
    intros s1 c s2 Hc ->. unfold squad_step.
    destruct (hasEnoughCards _ _); cbn [negb]; [|by intros [= <-]].
    assert (getRatingZ (ex ++ c) < t) as Hlow.
    { unfold getMultisubsets in Hc. apply getRatingZ_below; [done| |].
      - pose proof (multisubsetsImpl_length av
                      (Z.to_nat (size - Z.of_nat (length ex)))) as Hl.
        rewrite Forall_forall in Hl. rewrite length_app, (Hl c Hc). lia.
      - apply Forall_app. split; [done|].
        rewrite Forall_forall in *. intros v Hv. apply Hav.
        by apply (multisubsetsImpl_subseteq _ _ _ Hc). }
    rewrite (proj2 (Z.ltb_lt _ _) Hlow). by intros [= <-]. }
  intros [= <-]. cbn [solutions solutionsFound].
  destruct sortByPrice, (negb (maxS =? 0) && (maxS >? 0));
    cbn [JS.sort fold_right]; unfold slice0; by rewrite ?take_nil.
Qed.

Lemma calculateSquadSolutions_unreachable_witness :
  (0 < 95 /\ Forall (fun v => v < 95) [75; 76; 77] /\
   calculateSquadSolutions 95 [] [75; 76; 77] (PricesObj ∅) 2 50 true
   = Return no_solutions) /\
  solutions no_solutions = [] /\ solutionsFound no_solutions = 0.
Proof.
  assert (Forall (fun v => v < 95) [75; 76; 77]) as Hav
    by (repeat constructor; lia).
  assert (calculateSquadSolutions 95 [] [75; 76; 77] (PricesObj ∅) 2 50 true
          = Return no_solutions) as Hr by (by vm_compute).
  split; [split; [lia|by split]|].
  apply (calculateSquadSolutions_unreachable 95 [] [75; 76; 77] (PricesObj ∅)
           2 50 true no_solutions);
    [lia | simpl; lia | constructor | exact Hav | exact Hr].
Defined.

(** *** Solutions are valid squads *)

(** X20: the existing roster completed by the fill of any solution of the
    exhaustive search passes [validateSquad] for the target and the squad
    size, with the solution's [actualRating]. *)
Theorem solutions_pass_validateSquad (t : Z) (ex av : list Z) (p : prices)
    (size maxS : Z) (sortByPrice : bool) (r : result) (s : solution)
    (comb : list Z) :
  0 < size - Z.of_nat (length ex) ->
  calculateSquadSolutions t ex av p size maxS sortByPrice = Return r ->
  s ∈ solutions r ->
  combinationUsed s = Some comb ->
  let v := Calculator.validateSquad (ex ++ comb) t (Some size) in
  Calculator.SquadValidation.valid v = true /\
  Calculator.SquadValidation.actualRating v = Some (actualRating s) /\
  Calculator.SquadValidation.targetRating v = Some t.
Proof.
  intros Hslots Hr Hs Hcomb.
  destruct (calculateSquadSolutions_built _ _ _ _ _ _ _ _ _ Hslots Hr Hs)
    as (comb' & [Hlen _] & (Hused & _ & Hrating & Hge & _)).
  rewrite Hcomb in Hused. injection Hused as <-.
  unfold Calculator.validateSquad. cbn [default from_option id].
  rewrite length_app, Nat2Z.inj_add.
  rewrite (proj2 (Z.eqb_eq _ _)) by lia. cbn [negb].
  cbn [Calculator.SquadValidation.valid Calculator.SquadValidation.actualRating
       Calculator.SquadValidation.targetRating].
  rewrite <- Hrating. split; [|by split]. apply Z.geb_le. lia.
Qed.

Lemma solutions_pass_validateSquad_witness :
  exists r s comb,
    calculateSquadSolutions 85 (repeat 85 9) [86; 85; 84] (PricesObj ∅) 11 1 true
    = Return r /\
    s ∈ solutions r /\ combinationUsed s = Some comb /\
    Calculator.SquadValidation.valid
      (Calculator.validateSquad (repeat 85 9 ++ comb) 85 (Some 11)) = true.
Proof.
  eexists _, _, _. split; [by vm_compute|]. split; [by left|].
  split; [reflexivity|].
  eapply (solutions_pass_validateSquad 85 (repeat 85 9) [86; 85; 84]
            (PricesObj ∅) 11 1 true);
    [simpl; lia | by vm_compute | by left | reflexivity].
Defined.

End ExhaustiveResult.

(** ** The calculator's tools *)

Section CalculatorTools.
Import SolverHelper Index SolverSpec MoreSpec Helpers Calculator.

(** [Math.ceil(a / b)] on integers, for a positive divisor. *)
Lemma ceil_div (a b : Z) :
  0 < b -> option_map Math_ceil (js_div a b) = Some (- ((- a) / b)).
Proof.
  intros Hb. unfold js_div. rewrite (proj2 (Z.eqb_neq _ _)) by lia.
  cbn [option_map]. f_equal. unfold Math_ceil, Qceiling. f_equal.
  destruct b as [|p|p]; try lia.
  rewrite (Qfloor_comp _ ((- a) # p)); [apply Qfloor_make|].
  unfold Qeq, Qdiv, Qmult, Qinv, Qopp, inject_Z. simpl. lia.
Qed.

Lemma calculateMinimumRatingNeeded_value (t : Z) (ex : list Z) (slots : Z)
    (size : option Z) :
  0 < slots ->
  calculateMinimumRatingNeeded t ex slots size
  = Some (- ((- (t * 11 - sum_ratings ex)) / slots)).
Proof.
  intros Hs. unfold calculateMinimumRatingNeeded. by rewrite ceil_div.
Qed.

Lemma ceil_least (d b : Z) :
  0 < b ->
  d <= - ((- d) / b) * b /\ (forall m, d <= m * b -> - ((- d) / b) <= m).
Proof.
  intros Hb. pose proof (Z.div_mod (- d) b ltac:(lia)) as Hdm.
  pose proof (Z.mod_pos_bound (- d) b Hb) as Hmod.
  split; [nia|]. intros m Hm. nia.
Qed.

(** X21: for a positive number of remaining slots,
    [calculateMinimumRatingNeeded] returns the least integer [m] such that
    the existing ratings plus [remainingSlots] times [m] sum to at least
    eleven times the target; [squadSize] plays no part. *)
Theorem calculateMinimumRatingNeeded_least (t : Z) (ex : list Z) (slots : Z)
    (size : option Z) :
  0 < slots ->
  exists m,
    calculateMinimumRatingNeeded t ex slots size = Some m /\
    11 * t <= sum_ratings ex + m * slots /\
    (forall m', 11 * t <= sum_ratings ex + m' * slots -> m <= m').
Proof.
  intros Hs. eexists. split; [by apply calculateMinimumRatingNeeded_value|].
  destruct (ceil_least (t * 11 - sum_ratings ex) slots Hs) as [Hle Hmin].
  split; [lia|]. intros m' Hm'. apply Hmin. lia.
Qed.

Lemma calculateMinimumRatingNeeded_least_witness :
  0 < 8 /\
  calculateMinimumRatingNeeded 85 [84; 85; 86] 8 (Some 11) = Some 85 /\
  exists m,
    calculateMinimumRatingNeeded 85 [84; 85; 86] 8 (Some 11) = Some m /\
    11 * 85 <= sum_ratings [84; 85; 86] + m * 8 /\
    (forall m', 11 * 85 <= sum_ratings [84; 85; 86] + m' * 8 -> m <= m').
Proof.
  split; [lia|]. split; [by vm_compute|].
  apply (calculateMinimumRatingNeeded_least 85 [84; 85; 86] 8 (Some 11)). lia.
Defined.

Lemma bonus11_nonneg (S : Z) (p : list Z) : 0 <= bonus11 S p.
Proof.
  unfold bonus11. induction p as [|v p IH]; simpl; [done|]. lia.
Qed.

Lemma Zsum_repeat (v : Z) (n : nat) : Zsum (repeat v n) = Z.of_nat n * v.
Proof.
  induction n as [|n IH]; [done|].
  rewrite Nat2Z.inj_succ. change (Zsum (repeat v (S n))) with (v + Zsum (repeat v n)).
  rewrite IH. lia.
Qed.

Lemma rating_formula_lower (l : list Z) (t : Z) :
  l <> [] -> 11 * t <= Zsum l -> t <= rating_formula l.
Proof.
  intros Hne Hsum. rewrite (rating_formula_nonempty l Hne).
  set (p := l ++ repeat 0 (11 - length l)).
  assert (Zsum p = Zsum l) as HS.
  { unfold p. rewrite Zsum_app, Zsum_repeat. lia. }
  pose proof (bonus11_nonneg (Zsum p) p) as Hb.
  apply Z.div_le_lower_bound; [lia|].
  apply Z.div_le_lower_bound; lia.
Qed.

(** X22: the rating [calculateMinimumRatingNeeded] returns suffices:
    filling the remaining slots with players of that rating brings the
    squad to the target. *)
Theorem minimum_rating_reaches_target (t : Z) (ex : list Z) (slots : Z)
    (size : option Z) (m : Z) :
  0 < slots ->
  calculateMinimumRatingNeeded t ex slots size = Some m ->
  t <= calculateTeamRating
         (Some (map inject_Z (ex ++ repeat m (Z.to_nat slots)))).
Proof.
  intros Hs. rewrite (calculateMinimumRatingNeeded_value _ _ _ _ Hs).
  intros [= <-]. unfold calculateTeamRating.
  change (getRating (Some (map inject_Z ?l))) with (getRatingZ l).
  rewrite getRatingZ_formula. apply rating_formula_lower.
  - destruct (Z.to_nat slots) eqn:Hn; [lia|]. by destruct ex.
  - rewrite Zsum_app, Zsum_repeat, Z2Nat.id by lia.
    rewrite <- sum_ratings_Zsum.
    destruct (ceil_least (t * 11 - sum_ratings ex) slots Hs) as [Hle _]. lia.
Qed.

Lemma minimum_rating_reaches_target_witness :
  0 < 8 /\
  calculateMinimumRatingNeeded 85 [84; 85; 86] 8 None = Some 85 /\
  85 <= calculateTeamRating
          (Some (map inject_Z ([84; 85; 86] ++ repeat 85 (Z.to_nat 8)))).
Proof.
  split; [lia|]. split; [by vm_compute|].
  apply (minimum_rating_reaches_target 85 [84; 85; 86] 8 None 85);
    [lia | by vm_compute].
Defined.

End CalculatorTools.

(** ** getRatingStatistics *)

Section RatingStatistics.
Import SolverHelper Index SolverSpec MoreSpec Statistics.

Lemma sort_ascending (l : list Z) :
  StronglySorted Z.le (JS.sort (fun a b => a - b) l).
Proof.
  apply Sorted_StronglySorted; [apply _|].
  apply Sorted_impl with (JS.cmp_le (fun a b => a - b)).
  - unfold JS.cmp_le. intros a b. lia.
  - apply sort_sorted. unfold JS.cmp_le. intros a b. lia.
Qed.

(** In an ascending array the element at a smaller index is smaller. *)
Lemma sorted_nth_le (l : list Z) (i j : nat) :
  StronglySorted Z.le l -> (i <= j < length l)%nat ->
  nth i l 0 <= nth j l 0.
Proof.
  intros Hs. revert i j. induction Hs as [|x l Hs IH Hx]; intros i j Hij.
  { simpl in Hij. lia. }
  destruct i as [|i], j as [|j]; simpl in *; try lia.
  - rewrite Forall_forall in Hx. apply Hx, list_elem_of_In, nth_In. lia.
  - apply IH. lia.
Qed.

Lemma at_index_elem (l : list Z) (i : Z) :
  0 <= i < Z.of_nat (length l) -> at_index l i ∈ l.
Proof.
  intros Hi. unfold at_index. apply list_elem_of_In, nth_In. lia.
Qed.

Lemma at_index_between (l : list Z) (i : Z) :
  StronglySorted Z.le l -> 0 <= i < Z.of_nat (length l) ->
  at_index l 0 <= at_index l i <= at_index l (Z.of_nat (length l) - 1).
Proof.
  intros Hs Hi. unfold at_index. split; apply sorted_nth_le; try done; lia.
Qed.

Lemma elem_at_index (l : list Z) (v : Z) :
  v ∈ l -> exists i, 0 <= i < Z.of_nat (length l) /\ at_index l i = v.
Proof.
  intros Hv. apply list_elem_of_In in Hv.
  destruct (In_nth l v 0 Hv) as (n & Hn & Hnth).
  exists (Z.of_nat n). split; [lia|]. unfold at_index. by rewrite Nat2Z.id.
Qed.

(** The statistics of a non-empty array, field by field. *)
Lemma getRatingStatistics_fields (l : list Z) :
  l <> [] ->
  let sorted := JS.sort (fun a b => a - b) l in
  let n := Z.of_nat (length l) in
  let s := getRatingStatistics (Some l) in
  min s = at_index sorted 0 /\
  max s = at_index sorted (n - 1) /\
  count s = n /\
  median s =
    (if n mod 2 =? 0
     then ((inject_Z (at_index sorted (n / 2 - 1))
            + inject_Z (at_index sorted (n / 2))) / 2)%Q
     else inject_Z (at_index sorted (n / 2))) /\
  average s =
    (inject_Z (Math_round (inject_Z (sum_ratings l) / inject_Z n * 100)) / 100)%Q.
Proof. intros Hne. by destruct l. Qed.

(** X23: for a non-empty array, [count] is its length, [min] and [max]
    are members of the array and every member lies between them. *)
Theorem getRatingStatistics_min_max (l : list Z) :
  l <> [] ->
  let s := getRatingStatistics (Some l) in
  count s = Z.of_nat (length l) /\
  min s ∈ l /\ max s ∈ l /\
  Forall (fun v => min s <= v <= max s) l.
Proof.
  intros Hne.
  destruct (getRatingStatistics_fields l Hne) as (Hmin & Hmax & Hcount & _).
  cbv zeta in *. rewrite Hmin, Hmax, Hcount.
  set (sorted := JS.sort (fun a b => a - b) l).
  assert (length sorted = length l) as Hlen by apply sort_length.
  assert (0 < length l)%nat as Hpos by (destruct l; simpl; [done|lia]).
  split; [done|].
  split; [apply (sort_elem_of (fun a b => a - b)), at_index_elem; fold sorted; lia|].
  split; [apply (sort_elem_of (fun a b => a - b)), at_index_elem; fold sorted; lia|].
  apply Forall_forall. intros v Hv.
  apply (sort_elem_of (fun a b => a - b)), elem_at_index in Hv as (i & Hi & <-).
  fold sorted in Hi |- *. rewrite <- Hlen.
  apply at_index_between; [apply sort_ascending|done].
Qed.

Lemma getRatingStatistics_min_max_witness :
  [80; 88; 84; 86; 82] <> [] /\
  let s := getRatingStatistics (Some [80; 88; 84; 86; 82]) in
  count s = 5 /\ min s = 80 /\ max s = 88 /\
  Forall (fun v => min s <= v <= max s) [80; 88; 84; 86; 82].
Proof.
  split; [done|]. cbv zeta.
  split; [by vm_compute|]. split; [by vm_compute|]. split; [by vm_compute|].
  apply (getRatingStatistics_min_max [80; 88; 84; 86; 82]). done.
Defined.






End RatingStatistics.

(** ** The entry point on every path *)

Section EntryPointResult.
Import SolverHelper OptimalCombinations Index SolverSpec MoreSpec.

(** *** Well-formed inputs pass the validation *)

Lemma rating_ok_good (r : scalar) : rating_ok r -> bad_rating r = false.
Proof.
  intros (n & -> & Hn). unfold bad_rating, js_lt, js_gt. simpl.
  destruct (Z.ltb_spec n 45), (Z.gtb_spec n 99); simpl; try done; lia.
Qed.

Lemma rating_errors_ok (label : string) (index : nat) (l : list scalar) :
  Forall rating_ok l -> rating_errors label index l = [].
Proof.
  intros Hl. revert index. induction Hl as [|r l Hr _ IH]; intros index; [done|].
  cbn [rating_errors]. by rewrite (rating_ok_good r Hr), IH.
Qed.

Lemma well_formed_valid (t : scalar) (e a : value) (s : scalar) :
  rating_ok t -> ratings_ok e -> ratings_ok a -> size_ok s -> fits e s ->
  errors (validateInputs t e a s) = [].
Proof.
  intros Ht (le & -> & Hle) (la & -> & Hla) (n & -> & Hn) Hfits.
  unfold validateInputs. cbn [errors array_errors].
  rewrite (rating_ok_good t Ht), !rating_errors_ok by done.
  specialize (Hfits le n eq_refl eq_refl).
  unfold js_lt, js_gt, exceeds. simpl.
  destruct (Z.ltb_spec n 1), (Z.gtb_spec n 23); simpl; try lia.
  destruct (Z.gtb_spec (Z.of_nat (length le)) n); [lia|].
  by rewrite andb_false_r.
Qed.


(** *** The shape of every result *)

Lemma findOptimalSolutions_shape (options : OptimalOptions.t) (r : result) :
  findOptimalSolutions options = Return r ->
  error r = None /\
  solutionsFound r = Z.of_nat (length (solutions r)) /\
  (0 < solutionsFound r -> message r = None) /\
  StronglySorted by_total_points (solutions r).
Proof.
  unfold findOptimalSolutions.
  destruct (length _ =? 0)%nat.
  { intros [= <-]. cbn. repeat split; [lia|constructor]. }
  destruct (for_of _ _ _) as [sols|msg]; cbn [bind]; [|done].
  intros [= <-]. cbn [error solutions solutionsFound message].
  rewrite sort_length. repeat split. apply sort_by_total_points.
Qed.

Lemma fast_path_some (this : SBCRatingCalculator) (options : SquadOptions.t)
    (r : result) :
  fast_path this options = Return (Some r) ->
  0 < solutionsFound r /\
  exists o, findOptimalSolutions o = Return r.
Proof.
  unfold fast_path.
  destruct (fast_path_test _ _ _ _) as [[|]|m]; cbn [bind]; try done.
  destruct (SquadOptions.targetRating options) as [| |?|t]; try done.
  destruct (availableRatings_of options) as [?|available]; try done.
  destruct (findOptimalSolutions _) as [r'|m] eqn:Hopt; cbn [bind]; [|done].
  destruct (Z.gtb_spec (solutionsFound r') 0) as [Hpos|]; [|done].
  intros [= <-]. split; [lia|]. eauto.
Qed.

Lemma calculateSquadSolutions_shape (t : Z) (ex av : list Z) (p : prices)
    (size maxS : Z) (sortByPrice : bool) (r : result) :
  calculateSquadSolutions t ex av p size maxS sortByPrice = Return r ->
  solutionsFound r = Z.of_nat (length (solutions r)) /\
  message r = None /\
  (error r <> None -> solutions r = []).
Proof.
  unfold calculateSquadSolutions.
  destruct (calculateSquadSolutions_try _ _ _ _ _ _ _) as [r'|m] eqn:Htry.
  2:{ by intros [= <-]. }
  intros [= ->]. revert Htry. unfold calculateSquadSolutions_try.
  destruct ((t >? 99) || (t <? 45)); [by intros [= <-]|].
  destruct (size - Z.of_nat (length ex) <=? 0).
  { destruct (getRatingZ ex >=? t); by intros [= <-]. }
  destruct (for_of _ _ _) as [sols|m]; cbn [bind]; [|done].
  by intros [= <-].
Qed.

(** X26: whatever path [findSquadSolutions] takes, the result it returns
    has [solutionsFound] equal to the number of solutions listed, carries
    no [message], and lists no solution when it reports an error. *)
Theorem findSquadSolutions_result_shape (this : SBCRatingCalculator)
    (options : SquadOptions.t) (r : result) :
  findSquadSolutions this options = Return r ->
  solutionsFound r = Z.of_nat (length (solutions r)) /\
  message r = None /\
  (error r <> None -> solutions r = []).
Proof.
  unfold findSquadSolutions.
  destruct (fast_path this options) as [[r'|]|m] eqn:Hfast; cbn [bind]; [| |done].
  { intros [= ->]. apply fast_path_some in Hfast as [Hpos (o & Ho)].
    apply findOptimalSolutions_shape in Ho as (He & Hn & Hm & _).
    split; [done|]. split; [by apply Hm|]. by rewrite He. }
  destruct (valid _); cbn [negb]; [|by intros [= <-]].
  destruct (SquadOptions.targetRating options) as [| |?|t];
    try by intros [= <-].
  destruct (existingRatings_of options) as [?|existing];
    try by intros [= <-].
  destruct (availableRatings_of options) as [?|available];
    try by intros [= <-].
  destruct (squadSize_of this options) as [| |?|size];
    try by intros [= <-].
  apply calculateSquadSolutions_shape.
Qed.

Lemma findSquadSolutions_result_shape_witness :
  exists r,
    findSquadSolutions (new_calculator None None)
      {| SquadOptions.targetRating := Num 84;
         SquadOptions.existingRatings := Arr (repeat (Num 84) 9);
         SquadOptions.availableRatings := Arr [Num 82; Num 84; Num 86];
         SquadOptions.priceByRating :=
           Some (PricesObj (list_to_map [(82, 800); (84, 1500); (86, 3000)]));
         SquadOptions.squadSize := Undefined;
         SquadOptions.maxSolutions := Some 5;
         SquadOptions.sortByPrice := None;
         SquadOptions.useOptimalCombinations := None |} = Return r /\
    solutionsFound r = 3 /\
    solutionsFound r = Z.of_nat (length (solutions r)).
Proof.
  match goal with |- exists r, findSquadSolutions ?c ?o = _ /\ _ =>
    pose (this := c); pose (options := o) end.
  eexists. split; [by vm_compute|]. split; [reflexivity|].
  apply (findSquadSolutions_result_shape this options). by vm_compute.
Defined.

(** *** findMostEfficientSolutions *)

Lemma points_then_price_total (l : list solution) :
  StronglySorted points_then_price l -> StronglySorted by_total_points l.
Proof.
  induction 1 as [|s l _ IH Hs]; constructor; [done|].
  eapply Forall_impl; [exact Hs|].
  unfold points_then_price, by_total_points. intros s'. lia.
Qed.

(** X27: the solutions [findMostEfficientSolutions] returns are in
    ascending order of [totalRatingPoints], on the table-driven path and
    on the exhaustive one. *)
Theorem findMostEfficientSolutions_ascending (this : SBCRatingCalculator)
    (options : SquadOptions.t) (r : result) :
  findMostEfficientSolutions this options = Return r ->
  StronglySorted by_total_points (solutions r).
Proof.
  unfold findMostEfficientSolutions.
  set (options' := {| SquadOptions.sortByPrice := Some false |}).
  intros Hr.
  destruct (fast_path this options') as [[r'|]|m] eqn:Hfast.
  - unfold findSquadSolutions in Hr. rewrite Hfast in Hr. cbn [bind] in Hr.
    injection Hr as ->. apply fast_path_some in Hfast as [_ (o & Ho)].
    by apply findOptimalSolutions_shape in Ho as (_ & _ & _ & Hs).
  - destruct (findSquadSolutions_exhaustive this options' r Hfast Hr)
      as [->|(t & ex & av & size & _ & _ & Hcalc)]; [constructor|].
    apply calculateSquadSolutions_sorted in Hcalc as [Hs _].
    change (sortByPrice_of options') with false in Hs.
    by apply points_then_price_total.
  - unfold findSquadSolutions in Hr. by rewrite Hfast in Hr.
Qed.

Lemma findMostEfficientSolutions_ascending_witness :
  exists r,
    findMostEfficientSolutions (new_calculator None None)
      {| SquadOptions.targetRating := Num 84;
         SquadOptions.existingRatings := Arr (repeat (Num 84) 9);
         SquadOptions.availableRatings := Arr [Num 82; Num 84; Num 86];
         SquadOptions.priceByRating :=
           Some (PricesObj (list_to_map [(82, 800); (84, 1500); (86, 3000)]));
         SquadOptions.squadSize := Undefined;
         SquadOptions.maxSolutions := Some 5;
         SquadOptions.sortByPrice := Some true;
         SquadOptions.useOptimalCombinations := None |} = Return r /\
    map totalRatingPoints (solutions r) = [922; 924; 926] /\
    StronglySorted by_total_points (solutions r).
Proof.
  match goal with |- exists r, findMostEfficientSolutions ?c ?o = _ /\ _ =>
    pose (this := c); pose (options := o) end.
  eexists. split; [by vm_compute|]. split; [reflexivity|].
  apply (findMostEfficientSolutions_ascending this options). by vm_compute.
Defined.

(** *** Well-formed inputs give no error *)

Lemma calculateSquadSolutions_obj (t : Z) (ex av : list Z) (m : gmap Z Z)
    (size maxS : Z) (sortByPrice : bool) :
  exists r,
    calculateSquadSolutions t ex av (PricesObj m) size maxS sortByPrice
    = Return r /\ error r = None.
Proof.
  unfold calculateSquadSolutions, calculateSquadSolutions_try.
  destruct ((t >? 99) || (t <? 45)); [by eexists|].
  destruct (size - Z.of_nat (length ex) <=? 0).
  { destruct (getRatingZ ex >=? t); by eexists. }
  destruct (for_of_squad_obj t ex av m
              (getMultisubsets av (Z.to_nat (size - Z.of_nat (length ex)))) [])
    as (sols & -> & _).
  cbn [bind]. by eexists.
Qed.

(** X28: on well-formed inputs whose [priceByRating] is an object (or
    left out), [findSquadSolutions] returns a result without [error]. *)
Theorem findSquadSolutions_well_formed (this : SBCRatingCalculator)
    (options : SquadOptions.t) :
  rating_ok (SquadOptions.targetRating options) ->
  ratings_ok (existingRatings_of options) ->
  ratings_ok (availableRatings_of options) ->
  size_ok (squadSize_of this options) ->
  fits (existingRatings_of options) (squadSize_of this options) ->
  SquadOptions.priceByRating options <> Some PricesNull ->
  exists r, findSquadSolutions this options = Return r /\ error r = None.
Proof.
  intros Ht He Ha Hs Hf Hp.
  assert (exists m, priceByRating_of options = PricesObj m) as [m Hm].
  { unfold priceByRating_of.
    destruct (SquadOptions.priceByRating options) as [[|m]|]; [done| |];
      by eexists. }
  pose proof (well_formed_valid _ _ _ _ Ht He Ha Hs Hf) as Hvalid.
  destruct Ht as (t & Ht & _), He as (ex & He & _), Ha as (av & Ha & _),
           Hs as (size & Hs & _).
  assert (exists fast, fast_path this options = Return fast /\
            forall r, fast = Some r -> error r = None) as (fast & Hfast & Hsome).
  { unfold fast_path, fast_path_test. rewrite He, Ha, Ht, Hm. cbn [length_of bind].
    destruct (negb (bool_decide _)); cbn [bind]; [by eexists|].
    destruct (negb (useOptimalCombinations_of options)); cbn [bind]; [by eexists|].
    destruct (negb (js_ge (Num t) 80)); cbn [bind]; [by eexists|].
    destruct (negb (js_le (Num t) 92)); cbn [bind]; [by eexists|].
    destruct (Z.of_nat (length av) >? 50); cbn [bind]; [|by eexists].
    destruct (findOptimalSolutions_obj t av m (Some (maxSolutions_of this options)))
      as [r Hr].
    rewrite Hr. cbn [bind].
    apply findOptimalSolutions_shape in Hr as (Herr & _).
    destruct (solutionsFound r >? 0); eexists; split; try done.
    by intros r' [= <-]. }
  unfold findSquadSolutions. rewrite Hfast. cbn [bind].
  destruct fast as [r|]; [exists r; split; [done|by apply Hsome]|].
  unfold validateInputs in *. cbn [valid errors] in *. rewrite Hvalid.
  cbn [length Nat.eqb negb]. rewrite Ht, He, Ha, Hs, Hm.
  apply calculateSquadSolutions_obj.
Qed.

Lemma findSquadSolutions_well_formed_witness :
  exists r,
    findSquadSolutions (new_calculator None None)
      {| SquadOptions.targetRating := Num 95;
         SquadOptions.existingRatings := Sc Undefined;
         SquadOptions.availableRatings := Arr [Num 75; Num 76];
         SquadOptions.priceByRating := None;
         SquadOptions.squadSize := Num 2;
         SquadOptions.maxSolutions := None;
         SquadOptions.sortByPrice := None;
         SquadOptions.useOptimalCombinations := None |} = Return r /\
    error r = None.
Proof.
  apply findSquadSolutions_well_formed; cbn.
  - exists 95. split; [done|lia].
  - exists []. by split.
  - exists [Num 75; Num 76]. split; [done|].
    repeat constructor; eexists; (split; [done|lia]).
  - exists 2. split; [done|lia].
  - intros l n [= <-] [= <-]. simpl. lia.
  - done.
Defined.

End EntryPointResult.
